(** * manage_product_tags.py: tagging of catalog products by product type

    A shallow embedding of the script's mapping store, tag reconciliation,
    catalog scan and update loop, followed by the properties of the
    specification that were checked against it.

    Modelling conventions.
    - A Python [str] is a Rocq [string]; a character is one code point
      below 256, compared by its number, which is how Python orders
      strings.
    - A Python [dict] keyed by strings is a [gmap string _], a Python
      [set] of strings a [gset string].
    - [product.tags] may be absent ([None]) or a string: [option string].
    - Code that talks to the outside (the shop, the database, the keyboard)
      threads an explicit [World] and may raise: see [Module Run]. *)

From Stdlib Require Import Ascii String.
From stdpp Require Import gmap strings list sorting.

(** ** Python string primitives used by the script *)
Module Py.

(** [s.startswith(p)]. *)
Definition startswith (p s : string) : bool := String.prefix p s.

(** The first piece of a split grows by one character. *)
Definition cons_head (c : ascii) (pieces : list string) : list string :=
  match pieces with
  | p :: ps => String c p :: ps
  | [] => [String c ""]
  end.

(** [s.split(sep)] for a non-empty [sep]: pieces between the leftmost,
    non-overlapping occurrences of [sep], scanning from the left.
    [skip] counts the characters of a matched separator still to drop. *)
Fixpoint split_go (sep : string) (skip : nat) (s : string) : list string :=
  match s with
  | "" => [""]
  | String c s' =>
      match skip with
      | S k => split_go sep k s'
      | O =>
          if startswith sep s
          then "" :: split_go sep (String.length sep - 1) s'
          else cons_head c (split_go sep 0 s')
      end
  end.

Definition split (sep s : string) : list string := split_go sep 0 s.

(** [sep.join(pieces)]. *)
Definition join (sep : string) (pieces : list string) : string :=
  String.concat sep pieces.

(** [c.isspace()] on the code points below 256. *)
Definition isspace (c : ascii) : bool :=
  match c with
  | "009" | "010" | "011" | "012" | "013"
  | "028" | "029" | "030" | "031" | " "
  | "133" | "160" => true
  | _ => false
  end%char.

Fixpoint lstrip (s : string) : string :=
  match s with
  | "" => ""
  | String c s' => if isspace c then lstrip s' else s
  end.

Fixpoint rstrip (s : string) : string :=
  match s with
  | "" => ""
  | String c s' =>
      match rstrip s' with
      | "" => if isspace c then "" else String c ""
      | r => String c r
      end
  end.

(** [s.strip()]. *)
Definition strip (s : string) : string := rstrip (lstrip s).

(** [c.lower()] on the code points below 256. *)
Definition lower_char (c : ascii) : ascii :=
  let n := N_of_ascii c in
  if ((65 <=? n) && (n <=? 90) ||
      (192 <=? n) && (n <=? 222) && negb (n =? 215))%N
  then ascii_of_N (n + 32) else c.

Fixpoint lower (s : string) : string :=
  match s with
  | "" => ""
  | String c s' => String (lower_char c) (lower s')
  end.

(** [sub in s]: [sub] occurs somewhere in [s]. *)
Fixpoint contains (sub s : string) : bool :=
  startswith sub s ||
  match s with
  | "" => false
  | String _ s' => contains sub s'
  end.

End Py.

(** ** Configuration constants (lines 28-29) *)
Definition TAG_SEPARATOR : string := ";".
Definition SHOPIFY_TAG_SEPARATOR : string := ", ".

(** ** Products and tag reconciliation *)

(** The fields of a [shopify.Product] the script reads or writes. *)
Record Product := mkProduct {
  product_id : nat;
  title : string;
  product_type : string;
  tags : option string
}.

(** [product.tags.split(SHOPIFY_TAG_SEPARATOR) if product.tags else []]
    (lines 206, 252, 293, 393): an absent or empty string is falsy. *)
Definition split_tags (t : option string) : list string :=
  match t with
  | None => []
  | Some "" => []
  | Some s => Py.split SHOPIFY_TAG_SEPARATOR s
  end.

(** [current_tags = set(...)] (lines 252, 293, 393). *)
Definition current_tags (t : option string) : gset string :=
  list_to_set (split_tags t).

(** [[tag for tag in type_tags if tag not in current_tags]] (line 253). *)
Definition tags_to_add (type_tags : list string) (t : option string)
  : list string :=
  filter (λ tag, tag ∉ current_tags t) type_tags.

(** Lines 293-296 (and 393-396): the set of current tags is updated with
    the tags to add, sorted and joined again. *)
Definition merged_set (t : option string) (to_add : list string)
  : gset string :=
  current_tags t ∪ list_to_set to_add.

Definition sorted (s : gset string) : list string :=
  merge_sort String.le (elements s).

Definition merge_tags (t : option string) (to_add : list string) : string :=
  Py.join SHOPIFY_TAG_SEPARATOR (sorted (merged_set t to_add)).


(** At most one worklist entry per product (lines 245-255): the product is
    skipped when its type has no mapping or when nothing is missing. *)
Definition scan_product (mappings : gmap string (list string)) (p : Product)
  : option (Product * list string) :=
  match mappings !! product_type p with
  | Some type_tags =>
      match tags_to_add type_tags (tags p) with
      | [] => None
      | to_add => Some (p, to_add)
      end
  | None => None
  end.

(** One iteration of [for product in product_page] (lines 244-255), on the
    worklist built so far and [processed_count]. *)
Definition scan_step (mappings : gmap string (list string))
    (st : list (Product * list string) * nat) (p : Product)
  : list (Product * list string) * nat :=
  let '(products_with_type_tags, processed_count) := st in
  (products_with_type_tags ++ option_list (scan_product mappings p),
   S processed_count).

(** Lines 293-296: the product object with its [tags] attribute
    overwritten by the merged string. *)
Definition with_merged_tags (item : Product * list string) : Product :=
  let '(product, to_add) := item in
  mkProduct (product_id product) (title product) (product_type product)
            (Some (merge_tags (tags product) to_add)).

(** The tag string a product carries after one scan-and-apply round whose
    write succeeds: untouched when nothing is missing (the product never
    enters the worklist), merged otherwise. *)
Definition reconcile (type_tags : list string) (t : option string)
  : option string :=
  match tags_to_add type_tags t with
  | [] => t
  | to_add => Some (merge_tags t to_add)
  end.

(** ** The mapping store (table [product_type_tags], lines 41-49) *)
Record Row := mkRow {
  row_id : nat;
  row_tags : string;
  created_at : nat;
  updated_at : nat
}.

(** [product_type] is [UNIQUE]: the table is a map keyed by it.
    [next_id] is the [AUTOINCREMENT] counter. *)
Record Store := mkStore {
  table : gmap string Row;
  next_id : nat
}.

(** [SELECT product_type, tags FROM product_type_tags] (line 104). *)
Definition select_product_type_tags (st : Store) : list (string * string) :=
  map_to_list (row_tags <$> table st).

(** Line 109: [[tag.strip() for tag in tags_str.split(TAG_SEPARATOR)]]. *)
Definition parse_stored_tags (tags_str : string) : list string :=
  Py.strip <$> Py.split TAG_SEPARATOR tags_str.

(** Lines 107-110: one round of the loop over the rows, and the dict it
    builds. *)
Definition insert_row (mappings : gmap string (list string))
    (row : string * string) : gmap string (list string) :=
  let '(product_type, tags_str) := row in
  <[product_type := parse_stored_tags tags_str]> mappings.

Definition build_mappings (rows : list (string * string))
  : gmap string (list string) :=
  foldl insert_row ∅ rows.

(** ** The outside world: keyboard, database, shop, and what was observed *)
Module Run.

Inductive Key := Line (s : string) | CtrlC.

(** What the script can see raised. All but [KeyboardInterrupt] derive
    from [Exception]. *)
Inductive Exn :=
| EOFError | ShopifyError | Sqlite3Error | TypeError | KeyboardInterrupt.

Definition is_Exception (e : Exn) : bool :=
  match e with KeyboardInterrupt => false | _ => true end.

Inductive Prompt :=
| AskProductType | AskTags
| AskUpdateExisting (product_type : string)
| AskApply (n : nat).

(** One constructor per [print] of the modelled functions (timestamps and
    the rendering of tables are left out). *)
Inductive Message :=
| MappingsLoaded (n : nat) | LoadFailed
| MappingCancelled | MappingUpdated (product_type : string)
| MappingAdded (product_type : string) | AddFailed
| FieldsRequired | InvalidAnswer
| Searching | Progress (n : nat) | TotalChecked (n : nat)
| Starting | NoMappings | NothingToUpdate
| NoProducts | TableHeading | ProductsTable (n : nat) | TableTotal (n : nat)
| CancelledByUser | TagsAdded (title : string) (to_add : list string)
| UpdateFailed (title : string) | Finished
| Updated (update_count total : nat) | GeneralError
| AutoStarting | Found (n : nat) | AutoFinished | AutoError.

(** How a call of [product.save()] can end: it returns [True] (the shop
    took the write), it returns [False] (the shop refused it), it raises an
    exception, or the keyboard interrupts it. *)
Inductive SaveResult := Saved | Rejected | Failed | Interrupted.

Global Instance SaveResult_eq_dec : EqDecision SaveResult.
Proof. solve_decision. Defined.

(** Whether the call came back to the caller. *)
Definition save_returned (r : SaveResult) : bool :=
  match r with
  | Saved | Rejected => true
  | Failed | Interrupted => false
  end.

(** How showing the worklist can end (lines 204-223): everything is shown;
    building a row raises (a product without a title, say), before anything
    is printed; or rendering the table raises, after the heading. *)
Inductive Display := Shown | RowFails | TableFails.

Global Instance Display_eq_dec : EqDecision Display.
Proof. solve_decision. Defined.

Inductive Event :=
| Printed (m : Message)
| Asked (p : Prompt)
| SessionActivated
| SessionCleared
| PageFetched (ok : bool)
| SaveAttempt (p : Product) (r : SaveResult).

(** What [shopify.Product.find] and then each [next_page()] give: the call
    fails, or yields a page that has or has not a [next_page_url]. *)
Inductive Fetch :=
| FetchFail
| LastPage (items : list Product)
| MorePage (items : list Product) (next : Fetch).

Record World := mkWorld {
  database : option Store;   (* [None]: sqlite3 raises on access *)
  clock : nat;               (* CURRENT_TIMESTAMP *)
  keyboard : list Key;       (* what [input] will read; then end of file *)
  session_fails : bool;      (* [setup_session] raises *)
  catalog : Fetch;
  save_result : list Event → Product → SaveResult;
                             (* how [product.save()] ends, given all that
                                happened so far *)
  display : Display;         (* how showing the worklist ends *)
  trace : list Event
}.

Definition set_database (d : option Store) (w : World) : World :=
  mkWorld d (clock w) (keyboard w) (session_fails w) (catalog w)
          (save_result w) (display w) (trace w).
Definition set_keyboard (k : list Key) (w : World) : World :=
  mkWorld (database w) (clock w) k (session_fails w) (catalog w)
          (save_result w) (display w) (trace w).
Definition set_trace (t : list Event) (w : World) : World :=
  mkWorld (database w) (clock w) (keyboard w) (session_fails w) (catalog w)
          (save_result w) (display w) t.

Inductive Outcome (A : Type) :=
| Return (a : A)
| Raise (e : Exn).
Global Arguments Return {A} a.
Global Arguments Raise {A} e.

(** A computation changes the world and returns or raises. *)
Definition M (A : Type) : Type := World → World * Outcome A.

Definition ret {A} (a : A) : M A := λ w, (w, Return a).
Definition raise {A} (e : Exn) : M A := λ w, (w, Raise e).
Definition bind {A B} (m : M A) (f : A → M B) : M B :=
  λ w, match m w with
       | (w', Return a) => f a w'
       | (w', Raise e) => (w', Raise e)
       end.

Global Instance M_ret : MRet M := @ret.
Global Instance M_bind : MBind M := λ A B f m, bind m f.

(** [try: body except Exception: handler]. *)
Definition try_except {A} (body : M A) (handler : Exn → M A) : M A :=
  λ w, match body w with
       | (w', Raise e) =>
           if is_Exception e then handler e w' else (w', Raise e)
       | r => r
       end.

(** [try: body finally: cleanup]. *)
Definition try_finally {A} (body : M A) (cleanup : M unit) : M A :=
  λ w, match body w with
       | (w', r) =>
           match cleanup w' with
           | (w'', Return _) => (w'', r)
           | (w'', Raise e) => (w'', Raise e)
           end
       end.

Definition emit (e : Event) : M unit :=
  λ w, (set_trace (trace w ++ [e]) w, Return ()).
Definition print (m : Message) : M unit := emit (Printed m).

Definition world : M World := λ w, (w, Return w).
Definition write_database (st : Store) : M unit :=
  λ w, (set_database (Some st) w, Return ()).

(** [sqlite3.connect(DB_FILE)] and the statements run on it. *)
Definition connect : M Store :=
  λ w, match database w with
       | None => (w, Raise Sqlite3Error)
       | Some st => (w, Return st)
       end.

(** [input(prompt)]. *)
Definition input (p : Prompt) : M string :=
  λ w, let w' := set_trace (trace w ++ [Asked p]) w in
       match keyboard w with
       | [] => (w', Raise EOFError)
       | Line s :: ks => (set_keyboard ks w', Return s)
       | CtrlC :: ks => (set_keyboard ks w', Raise KeyboardInterrupt)
       end.

(** [get_user_confirmation] (lines 226-231): asks until the answer, trimmed
    and lower-cased, is [s] or [n]. The loop ends: each round consumes a
    line, and [input] raises at the end of the input. *)
Fixpoint get_user_confirmation_loop (message : Prompt) (keys : list Key)
    (t : list Event) : list Key * list Event * Outcome bool :=
  match keys with
  | [] => ([], t ++ [Asked message], Raise EOFError)
  | CtrlC :: ks => (ks, t ++ [Asked message], Raise KeyboardInterrupt)
  | Line s :: ks =>
      let response := Py.lower (Py.strip s) in
      if decide (response ∈ ["s"; "n"])
      then (ks, t ++ [Asked message], Return (bool_decide (response = "s")))
      else get_user_confirmation_loop message ks
             (t ++ [Asked message; Printed InvalidAnswer])
  end.

Definition get_user_confirmation (message : Prompt) : M bool :=
  λ w, let '(ks, t, r) :=
         get_user_confirmation_loop message (keyboard w) (trace w) in
       (set_trace t (set_keyboard ks w), r).

(** [setup_session] (lines 31-33) and [ShopifyResource.clear_session]. *)
Definition setup_session : M unit :=
  λ w, if session_fails w then (w, Raise ShopifyError)
       else emit SessionActivated w.
Definition clear_session : M unit := emit SessionCleared.

(** [load_product_type_mappings] (lines 99-116): any failure of the
    database is caught, reported, and answered with an empty dict. *)
Definition load_product_type_mappings : M (gmap string (list string)) :=
  try_except
    (st ← connect;
     let mappings := build_mappings (select_product_type_tags st) in
     print (MappingsLoaded (size mappings));;
     mret mappings)
    (λ _, print LoadFailed;; mret ∅).

(** [add_mapping] (lines 147-175). *)
Definition add_mapping (product_type tags : string) : M unit :=
  try_except
    (st ← connect;
     match table st !! product_type with
     | Some existing =>
         update ← get_user_confirmation (AskUpdateExisting product_type);
         if negb update then print MappingCancelled
         else
           w ← world;
           write_database
             (mkStore (<[product_type :=
                           mkRow (row_id existing) tags
                                 (created_at existing) (clock w)]> (table st))
                      (next_id st));;
           print (MappingUpdated product_type)
     | None =>
         w ← world;
         write_database
           (mkStore (<[product_type :=
                         mkRow (next_id st) tags (clock w) (clock w)]>
                       (table st))
                    (S (next_id st)));;
         print (MappingAdded product_type)
     end)
    (λ _, print AddFailed).

(** Option 2 of [admin_menu] (lines 323-329). *)
Definition admin_menu_add : M unit :=
  raw_type ← input AskProductType;
  let product_type := Py.strip raw_type in
  raw_tags ← input AskTags;
  let tags := Py.strip raw_tags in
  if bool_decide (product_type ≠ "") && bool_decide (tags ≠ "")
  then add_mapping product_type tags
  else print FieldsRequired.

(** Lines 256-258: the progress line after each page. *)
Definition report_progress (processed_count : nat) : M unit :=
  if decide (processed_count `mod` 250 = 0)
  then print (Progress processed_count) else mret ().

(** The [while product_page] loop (lines 243-265). [page] is what the
    last fetch gave; an empty page is falsy and ends the loop. *)
Fixpoint scan_pages (mappings : gmap string (list string)) (page : Fetch)
    (products_with_type_tags : list (Product * list string))
    (processed_count : nat) : M (list (Product * list string)) :=
  match page with
  | FetchFail => emit (PageFetched false);; raise ShopifyError
  | LastPage items =>
      emit (PageFetched true);;
      match items with
      | [] =>
          print (TotalChecked processed_count);; mret products_with_type_tags
      | _ =>
          let '(worklist, n) :=
            foldl (scan_step mappings)
                  (products_with_type_tags, processed_count) items in
          report_progress n;;
          print (TotalChecked n);; mret worklist
      end
  | MorePage items next =>
      emit (PageFetched true);;
      match items with
      | [] =>
          print (TotalChecked processed_count);; mret products_with_type_tags
      | _ =>
          let '(worklist, n) :=
            foldl (scan_step mappings)
                  (products_with_type_tags, processed_count) items in
          report_progress n;;
          scan_pages mappings next worklist n
      end
  end.

(** The products the loop goes through: those of the pages up to the first
    empty page or failed fetch; and whether every fetch on the way works. *)
Fixpoint visited (page : Fetch) : list Product :=
  match page with
  | FetchFail => []
  | LastPage items => items
  | MorePage [] _ => []
  | MorePage items next => items ++ visited next
  end.

Fixpoint fetch_ok (page : Fetch) : bool :=
  match page with
  | FetchFail => false
  | LastPage _ => true
  | MorePage [] _ => true
  | MorePage _ next => fetch_ok next
  end.

(** [get_products_for_type_tagging] (lines 233-265). *)
Definition get_products_for_type_tagging
    (product_type_mappings : gmap string (list string))
  : M (list (Product * list string)) :=
  if decide (product_type_mappings = ∅) then mret []
  else
    print Searching;;
    w ← world;
    scan_pages product_type_mappings (catalog w) [] 0.

(** [product.save()] (lines 297, 397): the shop decides how the call ends.
    The script drops what the call returns, so [True] and [False] look the
    same to it. *)
Definition save (p : Product) : M unit :=
  w ← world;
  let r := save_result w (trace w) p in
  emit (SaveAttempt p r);;
  match r with
  | Saved | Rejected => mret ()
  | Failed => raise ShopifyError
  | Interrupted => raise KeyboardInterrupt
  end.

(** The update loop (lines 289-301 and 389-400), returning [update_count].
    The two copies differ in one [print] (line 299), kept by [verbose]. *)
Fixpoint apply_updates (verbose : bool) (worklist : list (Product * list string))
    (update_count : nat) : M nat :=
  match worklist with
  | [] => mret update_count
  | item :: rest =>
      n ← try_except
            (save (with_merged_tags item);;
             (if verbose then print (TagsAdded (title item.1) item.2)
              else mret ());;
             mret (S update_count))
            (λ _, print (UpdateFailed (title item.1));; mret update_count);
      apply_updates verbose rest n
  end.

(** Lines 289-303 and 389-402: the update loop and the report of
    [update_count] out of [len(products_with_type_tags)]. *)
Definition update_products (verbose : bool)
    (products_with_type_tags : list (Product * list string)) : M unit :=
  update_count ← apply_updates verbose products_with_type_tags 0;
  print (if verbose then Finished else AutoFinished);;
  print (Updated update_count (length products_with_type_tags)).

(** The writes found in a stretch of the trace; how many of the calls came
    back to the loop, which is what [update_count] counts; and how many the
    shop took. *)
Definition save_attempts (evs : list Event) : list (Product * SaveResult) :=
  omap (λ e, match e with SaveAttempt p r => Some (p, r) | _ => None end)
       evs.
Definition returned (evs : list Event) : nat :=
  length (filter (λ a, save_returned a.2 = true) (save_attempts evs)).

(** [display_products] (lines 199-224): the heading, the table and the
    total; the content of the table is not modelled, only that building its
    rows or rendering it can raise. *)
Definition display_products (worklist : list (Product * list string))
  : M unit :=
  match worklist with
  | [] => print NoProducts
  | _ =>
      w ← world;
      match display w with
      | RowFails => raise TypeError
      | TableFails => print TableHeading;; raise TypeError
      | Shown =>
          print TableHeading;;
          print (ProductsTable (length worklist));;
          print (TableTotal (length worklist))
      end
  end.

(** [manage_product_type_tags] (lines 267-307). *)
Definition manage_product_type_tags : M unit :=
  try_finally
    (try_except
       (print Starting;;
        setup_session;;
        product_type_mappings ← load_product_type_mappings;
        if decide (product_type_mappings = ∅) then print NoMappings
        else
          products_with_type_tags ←
            get_products_for_type_tagging product_type_mappings;
          match products_with_type_tags with
          | [] => print NothingToUpdate
          | _ =>
              display_products products_with_type_tags;;
              confirmed ← get_user_confirmation
                            (AskApply (length products_with_type_tags));
              if negb confirmed then print CancelledByUser
              else update_products true products_with_type_tags
          end)
       (λ _, print GeneralError))
    clear_session.

(** [auto_manage_tags_without_confirmation] (lines 372-406). *)
Definition auto_manage_tags_without_confirmation : M unit :=
  try_finally
    (try_except
       (print AutoStarting;;
        setup_session;;
        product_type_mappings ← load_product_type_mappings;
        if decide (product_type_mappings = ∅) then print NoMappings
        else
          products_with_type_tags ←
            get_products_for_type_tagging product_type_mappings;
          match products_with_type_tags with
          | [] => print NothingToUpdate
          | _ =>
              print (Found (length products_with_type_tags));;
              update_products false products_with_type_tags
          end)
       (λ _, print AutoError))
    clear_session.

(** *** Observations on the trace *)

(** What the scan may add to the trace. *)
Definition scan_event (e : Event) : Prop :=
  match e with
  | PageFetched _ | Printed _ => True
  | _ => False
  end.

(** [m] only appends to the trace, and never clears the session. *)
Definition appends_only {A} (m : M A) : Prop :=
  ∀ w, ∃ evs, trace (m w).1 = trace w ++ evs ∧ SessionCleared ∉ evs.


End Run.

(** ** Display of tags *)

(** [format_tags] (lines 192-197): the tags joined with the internal
    separator, cut after [max_length] characters (50 where the script calls
    it) with an ellipsis when longer. *)
Definition format_tags (tag_list : list string) (max_length : nat) : string :=
  let tags_str := Py.join TAG_SEPARATOR tag_list in
  if decide (max_length < String.length tags_str)
  then String.substring 0 max_length tags_str +:+ "..."
  else tags_str.

(** A string that does not start with white space. *)
Definition no_lead (s : string) : Prop :=
  match s with
  | String c _ => Py.isspace c = false
  | "" => True
  end.

(** ** The rest of the mapping store *)
Module Admin.
Import Run.

(** What [remove_mapping] prints, returned as a value. *)
Inductive RemoveReport := Removed | NotFound | RemoveFailed.

(** [remove_mapping] (lines 177-190): [cursor.rowcount] is positive exactly
    when the row was there. *)
Definition remove_mapping (product_type : string) : M RemoveReport :=
  try_except
    (st ← connect;
     write_database (mkStore (delete product_type (table st)) (next_id st));;
     mret (if decide (is_Some (table st !! product_type))
           then Removed else NotFound))
    (λ _, mret RemoveFailed).

(** A cell of the spreadsheet as pandas gives it: missing ([pd.notna] is
    false), a string, or any other value (a number, a date), on which
    [.strip()] raises. *)
Inductive Cell := NaN | Text (s : string) | Other.

(** The file [MAPPING_FILE]: absent, not readable as a table (the reader
    raises), or a frame with or without each of the two required columns
    and, per row, the cells under [tipo_produto] and [tags]. *)
Inductive Sheet :=
| NoFile
| Unreadable
| Frame (has_tipo_produto has_tags : bool) (rows : list (Cell * Cell)).

(** What [import_from_spreadsheet] prints, returned as a value. *)
Inductive ImportReport :=
| FileNotFound | ColumnMissing (col : string) | ImportDone | ImportError.

(** [INSERT OR REPLACE INTO product_type_tags (product_type, tags)]
    (lines 90-93): a row under the same product type is replaced by a new
    row, with a new id and both timestamps set to now. *)
Definition insert_or_replace (now : nat) (product_type tag_str : string)
    (st : Store) : Store :=
  mkStore (<[product_type := mkRow (next_id st) tag_str now now]> (table st))
          (S (next_id st)).

(** One round of the loop over the rows (lines 85-93); [None] when
    [.strip()] raises. *)
Definition import_row (now : nat) (st : Store) (row : Cell * Cell)
  : option Store :=
  match row with
  | (NaN, _) => Some st
  | (_, NaN) => Some st
  | (Text tipo_produto, Text tag_str) =>
      Some (insert_or_replace now (Py.strip tipo_produto) (Py.strip tag_str) st)
  | _ => None
  end.

(** The loop: the store as the connection sees it when the loop ends, and
    whether it ended without raising. *)
Fixpoint import_rows (now : nat) (st : Store) (rows : list (Cell * Cell))
  : Store * bool :=
  match rows with
  | [] => (st, true)
  | row :: rest =>
      match import_row now st row with
      | Some st' => import_rows now st' rest
      | None => (st, false)
      end
  end.

(** [import_from_spreadsheet] (lines 66-97) on an open connection: the
    store as the connection sees it afterwards, whether the function
    committed (line 94), and what it printed. *)
Definition import_from_spreadsheet (now : nat) (sheet : Sheet) (conn : Store)
  : Store * bool * ImportReport :=
  match sheet with
  | NoFile => (conn, false, FileNotFound)
  | Unreadable => (conn, false, ImportError)
  | Frame has_tipo_produto has_tags rows =>
      if negb has_tipo_produto then (conn, false, ColumnMissing "tipo_produto")
      else if negb has_tags then (conn, false, ColumnMissing "tags")
      else
        let '(st, finished) := import_rows now conn rows in
        if finished then (st, true, ImportDone) else (st, false, ImportError)
  end.

(** Option 4 of [admin_menu] once confirmed (lines 341-344): the
    connection is closed without a commit of its own, so what the import
    did not commit is lost. *)
Definition admin_menu_import (now : nat) (sheet : Sheet) (st : Store)
  : Store * ImportReport :=
  let '(st', committed, report) := import_from_spreadsheet now sheet st in
  (if committed then st' else st, report).

(** What [setup_database] prints, returned as a value. *)
Inductive SetupReport :=
| Created (r : ImportReport)
| WasEmpty (r : ImportReport)
| AlreadyFilled (count : nat).

(** [setup_database] (lines 35-64), for a database file that is absent
    ([None]) or holds a store; it commits whatever the connection holds at
    the end (line 63). A new table starts its ids at 1. *)
Definition setup_database (now : nat) (sheet : Sheet) (db_file : option Store)
  : Store * SetupReport :=
  match db_file with
  | None =>
      let '(st, _, report) :=
        import_from_spreadsheet now sheet (mkStore ∅ 1) in
      (st, Created report)
  | Some conn =>
      let count := size (table conn) in
      if decide (count = 0)
      then let '(st, _, report) := import_from_spreadsheet now sheet conn in
           (st, WasEmpty report)
      else (conn, AlreadyFilled count)
  end.

(** The pairs a sheet asks to store: the rows with two strings, trimmed. *)
Definition sheet_entries (rows : list (Cell * Cell)) : list (string * string) :=
  omap (λ row, match row with
               | (Text tipo_produto, Text tag_str) =>
                   Some (Py.strip tipo_produto, Py.strip tag_str)
               | _ => None
               end) rows.

(** *** How a computation may change the world *)

(** [w'] comes from [w] by using up the keyboard as [R] allows and by
    appending events that satisfy [P]; nothing else changes. *)
Definition evolves (R : relation (list Key)) (P : Event → Prop)
    (w w' : World) : Prop :=
  ∃ evs,
    w' = mkWorld (database w) (clock w) (keyboard w') (session_fails w)
                 (catalog w) (save_result w) (display w)
                 (trace w ++ evs) ∧
    R (keyboard w') (keyboard w) ∧ Forall P evs.

(** From a world that satisfies [K], [m] changes the world only so. *)
Definition tame (K : World → Prop) (R : relation (list Key))
    (P : Event → Prop) {A} (m : M A) : Prop :=
  ∀ w, K w → evolves R P w (m w).1.

(** Whatever [m] raises satisfies [E]. *)
Definition raises_only (E : Exn → Prop) {A} (m : M A) : Prop :=
  ∀ w e, (m w).2 = Raise e → E e.

(** An answer that [get_user_confirmation] accepts, and one that means yes. *)
Definition accepted (s : string) : Prop := Py.lower (Py.strip s) ∈ ["s"; "n"].
Definition says_yes (k : Key) : Prop :=
  match k with Line s => Py.lower (Py.strip s) = "s" | CtrlC => False end.

Definition is_save (e : Event) : Prop :=
  match e with SaveAttempt _ _ => True | _ => False end.
Definition is_asked (e : Event) : Prop :=
  match e with Asked _ => True | _ => False end.

(** The fetches found in a stretch of the trace, with their outcomes. *)
Definition fetch_results (evs : list Event) : list bool :=
  omap (λ e, match e with PageFetched ok => Some ok | _ => None end) evs.

(** The fetches the scan makes: one per page up to the first empty page or
    failure. *)
Fixpoint fetches (page : Fetch) : nat :=
  match page with
  | FetchFail => 1
  | LastPage _ => 1
  | MorePage [] _ => 1
  | MorePage _ next => S (fetches next)
  end.

End Admin.

(** * Properties *)

(** ** The definitions on small inputs *)
Example split_ex1 : Py.split ", " "old, sale" = ["old"; "sale"].
Proof. reflexivity. Qed.
Example split_ex2 : Py.split ", " "a,, b, " = ["a,"; "b"; ""].
Proof. reflexivity. Qed.
Example split_ex3 : Py.split ";" ";a;;b;" = [""; "a"; ""; "b"; ""].
Proof. reflexivity. Qed.
Example strip_ex : Py.strip "  a b  " = "a b".
Proof. reflexivity. Qed.
Example tta_ex : tags_to_add ["sale"; "new"] (Some "old, sale") = ["new"].
Proof. vm_compute. reflexivity. Qed.
Example merge_ex : merge_tags (Some "old, sale") ["new"] = "new, old, sale".
Proof. vm_compute. reflexivity. Qed.
Example lower_strip_ex : Py.lower (Py.strip " S ") = "s".
Proof. reflexivity. Qed.
Example parse_stored_ex : parse_stored_tags "sale; new" = ["sale"; "new"].
Proof. reflexivity. Qed.

(** ** Splitting and joining on the catalog separator *)
Section wire_format.

Local Abbreviation no_sep := (λ t : string, Py.contains ", " t = false).

Lemma startswith_sep c x :
  Py.startswith ", " (String c x) = true ↔
  c = ","%char ∧ ∃ x', x = String " " x'.
Proof.
  unfold Py.startswith.
  destruct x as [|b x']; cbn [String.prefix];
    destruct (ascii_dec "," c) as [<-|Hc];
    try destruct (ascii_dec " " b) as [<-|Hb];
    split; try done; try (intros [? [? ?]]; congruence).
  - intros _. eauto.
  - intros _. by destruct x'.
Qed.

Lemma split_go_not_nil sep k s : Py.split_go sep k s ≠ [].
Proof.
  revert k. induction s as [|c s IH]; intros k; cbn [Py.split_go]; [done|].
  destruct k; [|done].
  destruct (Py.startswith sep (String c s)); [done|].
  specialize (IH 0). by destruct (Py.split_go sep 0 s).
Qed.

Lemma split_sep_here s :
  Py.split ", " (String "," (String " " s)) = "" :: Py.split ", " s.
Proof.
  unfold Py.split. cbn [Py.split_go].
  by rewrite (proj2 (startswith_sep _ _)) by eauto.
Qed.

Lemma split_sep_not_here c s :
  Py.startswith ", " (String c s) = false →
  Py.split ", " (String c s) = Py.cons_head c (Py.split ", " s).
Proof. unfold Py.split. cbn [Py.split_go]. by intros ->. Qed.

(** The first piece starts as the string does. *)
Lemma split_head_space s p ps :
  Py.split ", " s = String " " p :: ps → ∃ s', s = String " " s'.
Proof.
  destruct s as [|a s]; [done|].
  destruct (Py.startswith ", " (String a s)) eqn:E.
  - apply startswith_sep in E as [-> [x' ->]]. by rewrite split_sep_here.
  - rewrite split_sep_not_here by done.
    pose proof (split_go_not_nil ", " 0 s) as Hne.
    unfold Py.split. destruct (Py.split_go ", " 0 s); [done|].
    simpl. intros [= -> _ _]. eauto.
Qed.

(** No piece of a split contains the separator. *)
Lemma split_go_pieces s : ∀ k, k ≤ 1 →
  Forall no_sep (Py.split_go ", " k s).
Proof.
  induction s as [|c s IH]; intros k Hk.
  - by repeat constructor.
  - destruct k as [|k]; [|cbn [Py.split_go]; apply IH; lia].
    destruct (Py.startswith ", " (String c s)) eqn:E.
    + cbn [Py.split_go]. rewrite E.
      constructor; [done|]. apply IH. cbn. lia.
    + fold (Py.split ", " (String c s)). rewrite split_sep_not_here by done.
      pose proof (IH 0 (Nat.le_0_l _)) as IH0. fold (Py.split ", " s) in IH0.
      destruct (Py.split ", " s) as [|p ps] eqn:Es.
      { by destruct (split_go_not_nil ", " 0 s). }
      apply Forall_cons in IH0 as [Hp Hps]. simpl.
      constructor; [|done].
      cbn [Py.contains]. rewrite Hp, orb_false_r.
      destruct (Py.startswith ", " (String c p)) eqn:Ep; [|done].
      apply startswith_sep in Ep as [-> [p' ->]].
      apply split_head_space in Es as [s' ->].
      rewrite <-E. symmetry. apply startswith_sep. eauto.
Qed.

Lemma split_pieces s : Forall no_sep (Py.split ", " s).
Proof. apply split_go_pieces; lia. Qed.

Lemma no_sep_cons c t :
  Py.contains ", " (String c t) = false →
  Py.startswith ", " (String c t) = false ∧ Py.contains ", " t = false.
Proof. cbn [Py.contains]. by intros [??]%orb_false_elim. Qed.

(** A string without separator is a single piece. *)
Lemma split_no_sep t : no_sep t → Py.split ", " t = [t].
Proof.
  induction t as [|c t IH]; [done|].
  intros [E Ht]%no_sep_cons.
  rewrite split_sep_not_here, IH by done. done.
Qed.

Lemma split_app_sep t r :
  no_sep t → Py.split ", " (t +:+ ", " +:+ r) = t :: Py.split ", " r.
Proof.
  induction t as [|c t IH].
  { intros _. apply split_sep_here. }
  intros [E Ht]%no_sep_cons.
  change (String c t +:+ ", " +:+ r) with (String c (t +:+ ", " +:+ r)).
  assert (Py.startswith ", " (String c (t +:+ ", " +:+ r)) = false) as E'.
  { apply not_true_is_false. intros [-> [x' Hx]]%startswith_sep.
    destruct t as [|a t]; [done|].
    injection Hx as -> _.
    apply not_true_iff_false in E. apply E, startswith_sep. eauto. }
  rewrite split_sep_not_here by done. by rewrite IH.
Qed.

(** Joining then splitting gives the pieces back when none of them holds a
    separator. *)
Lemma split_join l :
  l ≠ [] → Forall no_sep l → Py.split ", " (Py.join ", " l) = l.
Proof.
  induction l as [|x [|y l] IH]; [done| |]; intros _ Hl.
  - apply Forall_cons in Hl as [Hx _]. by apply split_no_sep.
  - apply Forall_cons in Hl as [Hx Hl].
    change (Py.join ", " (x :: y :: l))
      with (x +:+ ", " +:+ Py.join ", " (y :: l)).
    rewrite split_app_sep by done. f_equal. by apply IH.
Qed.

Lemma append_empty (a b : string) : a +:+ b = "" → a = "" ∧ b = "".
Proof. by destruct a. Qed.

Lemma append_nil_r (a : string) : a +:+ "" = a.
Proof.
  induction a as [|c a IH]; [done|].
  change (String c (a +:+ "") = String c a). by rewrite IH.
Qed.

Lemma append_assoc (a b c : string) : (a +:+ b) +:+ c = a +:+ b +:+ c.
Proof.
  induction a as [|x a IH]; [done|].
  change (String x ((a +:+ b) +:+ c) = String x (a +:+ b +:+ c)).
  by rewrite IH.
Qed.

Lemma join_empty l : Py.join ", " l = "" → l = [] ∨ l = [""].
Proof.
  destruct l as [|x [|y l]]; [by left|intros Hx; right; by f_equal|].
  change (Py.join ", " (x :: y :: l))
    with (x +:+ ", " +:+ Py.join ", " (y :: l)).
  by intros [_ ?]%append_empty.
Qed.

Lemma join_cons x y l :
  Py.join ", " (x :: y :: l) = x +:+ ", " +:+ Py.join ", " (y :: l).
Proof. reflexivity. Qed.

Lemma join_cons_head c l :
  l ≠ [] → Py.join ", " (Py.cons_head c l) = String c (Py.join ", " l).
Proof. by destruct l as [|p [|q l]]. Qed.

(** Joining the pieces of a split gives the string back. *)
Lemma join_split_step s :
  Py.join ", " (Py.split ", " s) = s ∧
  ∀ c, Py.join ", " (Py.split ", " (String c s)) = String c s.
Proof.
  induction s as [|a s [IH0 IH1]].
  - split; [done|]. intros c. rewrite split_sep_not_here; [done|].
    apply not_true_is_false. by intros [_ [x' Hx]]%startswith_sep.
  - split; [apply IH1|]. intros c.
    destruct (Py.startswith ", " (String c (String a s))) eqn:E.
    + apply startswith_sep in E as [-> [x' Hx]]. injection Hx as -> ->.
      rewrite split_sep_here.
      pose proof (split_go_not_nil ", " 0 x') as Hne.
      fold (Py.split ", " x') in Hne.
      destruct (Py.split ", " x') as [|p ps] eqn:Es; [done|].
      by rewrite join_cons, IH0.
    + rewrite split_sep_not_here by done.
      rewrite join_cons_head by apply split_go_not_nil. by rewrite IH1.
Qed.

Lemma join_split s : Py.join ", " (Py.split ", " s) = s.
Proof. apply join_split_step. Qed.

(** The pieces of a split are the one way to cut the string into one or
    more pieces without separator, separated by ", ". *)
Lemma split_unique s l :
  Py.split ", " s = l ↔ l ≠ [] ∧ Forall no_sep l ∧ Py.join ", " l = s.
Proof.
  split.
  - intros <-. split_and!;
      [apply split_go_not_nil|apply split_pieces|apply join_split].
  - intros (Hne & Hl & <-). by apply split_join.
Qed.

End wire_format.

(** ** Sets of tags, sorting, and the two reconciliation functions *)
Section reconciliation.

Implicit Types (t : option string) (tag : string) (s : gset string).
Implicit Types (type_tags to_add l : list string).

Lemma filter_none {A} (P : A → Prop) `{∀ x, Decision (P x)} (xs : list A) :
  (∀ x, x ∈ xs → ¬ P x) → filter P xs = [].
Proof.
  induction xs as [|x xs IH]; intros Hall; [done|].
  rewrite filter_cons_False by (apply Hall; left).
  apply IH. intros y Hy. apply Hall. by right.
Qed.

Lemma elem_of_sorted s tag : tag ∈ sorted s ↔ tag ∈ s.
Proof. unfold sorted. rewrite merge_sort_Permutation. apply elem_of_elements. Qed.

Lemma NoDup_sorted s : NoDup (sorted s).
Proof. unfold sorted. rewrite merge_sort_Permutation. apply NoDup_elements. Qed.

Lemma Sorted_sorted s : Sorted String.le (sorted s).
Proof. apply (Sorted_merge_sort String.le). Qed.

Lemma elem_of_current_tags t tag : tag ∈ current_tags t ↔ tag ∈ split_tags t.
Proof. apply elem_of_list_to_set. Qed.

Lemma elem_of_merged_set t to_add tag :
  tag ∈ merged_set t to_add ↔ tag ∈ split_tags t ∨ tag ∈ to_add.
Proof.
  unfold merged_set.
  by rewrite elem_of_union, elem_of_current_tags, elem_of_list_to_set.
Qed.

Lemma tags_to_add_filter type_tags t :
  tags_to_add type_tags t = filter (λ tag, tag ∉ split_tags t) type_tags.
Proof.
  apply list_filter_iff. intros tag. by rewrite elem_of_current_tags.
Qed.

Lemma elem_of_tags_to_add type_tags t tag :
  tag ∈ tags_to_add type_tags t ↔ tag ∈ type_tags ∧ tag ∉ split_tags t.
Proof.
  unfold tags_to_add.
  rewrite list_elem_of_filter, elem_of_current_tags. tauto.
Qed.

Lemma split_tags_Some c x :
  split_tags (Some (String c x)) = Py.split ", " (String c x).
Proof. reflexivity. Qed.

Lemma split_tags_pieces t :
  Forall (λ tag, Py.contains ", " tag = false) (split_tags t).
Proof.
  destruct t as [[|c x]|]; [constructor| |constructor].
  rewrite split_tags_Some. apply split_pieces.
Qed.

(** A tag of a joined list occurs in the joined string. *)
Lemma join_occurs sep l tag :
  tag ∈ l → ∃ pre post, Py.join sep l = pre +:+ tag +:+ post.
Proof.
  induction l as [|x [|y l] IH]; [by intros ?%elem_of_nil| |].
  - intros ->%list_elem_of_singleton. exists "", "".
    cbn. by rewrite append_nil_r.
  - change (Py.join sep (x :: y :: l))
      with (x +:+ sep +:+ Py.join sep (y :: l)).
    intros [->|Hin]%elem_of_cons.
    + by exists "", (sep +:+ Py.join sep (y :: l)).
    + destruct (IH Hin) as (pre & post & ->).
      exists (x +:+ sep +:+ pre), post.
      by rewrite !append_assoc.
Qed.

(** Two sets with the same tags are written the same way. *)
Lemma merge_tags_ext t1 to_add1 t2 to_add2 :
  (∀ tag, tag ∈ split_tags t1 ++ to_add1 ↔ tag ∈ split_tags t2 ++ to_add2) →
  merge_tags t1 to_add1 = merge_tags t2 to_add2.
Proof.
  intros H. unfold merge_tags. f_equal. f_equal.
  apply set_eq. intros tag. rewrite !elem_of_merged_set, <-!elem_of_app.
  apply H.
Qed.

(** Reading back a merged string gives the sorted tags, provided each is a
    single wire-format tag and they are not just the empty tag. *)
Lemma split_tags_merge_tags t to_add :
  Forall (λ tag, Py.contains ", " tag = false) to_add →
  (∃ tag, tag ∈ merged_set t to_add ∧ tag ≠ "") →
  split_tags (Some (merge_tags t to_add)) = sorted (merged_set t to_add).
Proof.
  intros Hadd (tag & Hin & Hne). unfold merge_tags.
  set (l := sorted (merged_set t to_add)).
  assert (tag ∈ l) as Hl by by apply elem_of_sorted.
  assert (l ≠ []) as Hnil by (intros E; rewrite E in Hl; by apply elem_of_nil in Hl).
  destruct (Py.join SHOPIFY_TAG_SEPARATOR l) as [|c x] eqn:Ej.
  { apply join_empty in Ej as [E|E]; [done|].
    rewrite E in Hl. by apply list_elem_of_singleton in Hl. }
  rewrite split_tags_Some, <-Ej. apply split_join; [done|].
  apply Forall_forall. intros x' Hx'.
  apply elem_of_sorted, elem_of_merged_set in Hx' as [Hx'|Hx'].
  - by eapply (proj1 (Forall_forall _ _) (split_tags_pieces t)).
  - by eapply (proj1 (Forall_forall _ _) Hadd).
Qed.

(** A list in lexicographic order and without repetition is determined by
    its elements. *)
Lemma sorted_unique l s :
  Sorted String.le l → NoDup l → (∀ tag, tag ∈ l ↔ tag ∈ s) → l = sorted s.
Proof.
  intros Hs Hn Hin. apply (Sorted_unique String.le); [done|apply Sorted_sorted|].
  apply NoDup_Permutation; [done|apply NoDup_sorted|].
  intros tag. by rewrite elem_of_sorted.
Qed.

Lemma NoDup_all_empty l :
  NoDup l → (∀ tag, tag ∈ l → tag = "") → l = [] ∨ l = [""].
Proof.
  intros Hn Hall. destruct l as [|x [|y l]]; [by left|right|exfalso].
  - f_equal. apply Hall. left.
  - apply NoDup_cons in Hn as [Hx _]. apply Hx.
    rewrite (Hall x) by left. rewrite (Hall y) by (right; left). left.
Qed.

(** When a merged string reads back as the sorted tags. *)
Lemma split_tags_merge_tags_iff t to_add :
  split_tags (Some (merge_tags t to_add)) = sorted (merged_set t to_add) ↔
  Forall (λ tag, Py.contains ", " tag = false) to_add ∧
  sorted (merged_set t to_add) ≠ [""].
Proof.
  split.
  - intros Heq. split.
    + apply Forall_forall. intros tag Hin.
      assert (tag ∈ split_tags (Some (merge_tags t to_add))) as H.
      { rewrite Heq. apply elem_of_sorted, elem_of_merged_set. by right. }
      by apply (proj1 (Forall_forall _ _) (split_tags_pieces _)) in H.
    + intros E. unfold merge_tags in Heq. rewrite E in Heq. done.
  - intros [Hadd Hne].
    destruct (decide (Exists (λ tag, tag ≠ "") (sorted (merged_set t to_add))))
      as [Hex|Hall].
    + apply Exists_exists in Hex as (tag & Hin & Htag).
      apply split_tags_merge_tags; [done|]. exists tag.
      split; [|done]. by apply elem_of_sorted.
    + apply not_Exists_Forall in Hall; [|apply _].
      destruct (NoDup_all_empty (sorted (merged_set t to_add))) as [E|E];
        [apply NoDup_sorted| | |done].
      * intros tag Hin. apply (proj1 (Forall_forall _ _) Hall) in Hin.
        cbn in Hin. by destruct (decide (tag = "")).
      * unfold merge_tags. by rewrite E.
Qed.

End reconciliation.

(** ** The reconciler and the merge step *)

(** C1. The reconciler reads the current tags by splitting the string on
    the separator ", ": an absent or empty string gives no tags, and of any
    other string the tags are the one way to cut it into pieces that hold no
    ", " and that give the string back when joined with ", ". It returns the
    desired tags that are not among them, in the order of the desired list
    and compared as exact strings; for the mapping of Shoes to sale and new
    and the current tags "old, sale" it returns new alone. *)
Theorem C1_tags_to_add_missing_in_order :
  split_tags None = [] ∧ split_tags (Some "") = [] ∧
  (∀ c x l,
     split_tags (Some (String c x)) = l ↔
     l ≠ [] ∧ Forall (λ tag, Py.contains ", " tag = false) l ∧
     Py.join ", " l = String c x) ∧
  (∀ type_tags t,
     tags_to_add type_tags t = filter (λ tag, tag ∉ split_tags t) type_tags) ∧
  (∀ type_tags t, tags_to_add type_tags t `sublist_of` type_tags) ∧
  (∀ type_tags t tag,
     tag ∈ tags_to_add type_tags t ↔ tag ∈ type_tags ∧ tag ∉ split_tags t) ∧
  tags_to_add ["Sale"] (Some "sale") = ["Sale"] ∧
  (∀ id ttl,
     scan_product {["Shoes" := ["sale"; "new"]]}
                  (mkProduct id ttl "Shoes" (Some "old, sale"))
     = Some (mkProduct id ttl "Shoes" (Some "old, sale"), ["new"])).
Proof.
  split_and!.
  - done.
  - done.
  - intros c x l. rewrite split_tags_Some. apply split_unique.
  - apply tags_to_add_filter.
  - intros. apply sublist_filter.
  - apply elem_of_tags_to_add.
  - by vm_compute.
  - intros id ttl. unfold scan_product. cbn [product_type tags].
    rewrite lookup_singleton_eq.
    by replace (tags_to_add ["sale"; "new"] (Some "old, sale")) with ["new"]
      by by vm_compute.
Qed.

(** C2 as stated fails: an added tag that holds the separator is written
    into the string as it is, so the string then reads as other tags, here
    with one of them twice and without the added tag; and the empty tag
    added to a product without tags leaves a string without any tag. *)
Lemma C2_added_tag_read_back_differs :
  merge_tags (Some "a") ["a, b"] = "a, a, b" ∧
  split_tags (Some (merge_tags (Some "a") ["a, b"])) = ["a"; "a"; "b"] ∧
  (¬ NoDup (split_tags (Some (merge_tags (Some "a") ["a, b"])))) ∧
  ("a, b" ∉ split_tags (Some (merge_tags (Some "a") ["a, b"]))) ∧
  ("" ∉ split_tags (Some (merge_tags None [""]))).
Proof.
  assert (split_tags (Some (merge_tags (Some "a") ["a, b"])) = ["a"; "a"; "b"])
    as E by by vm_compute.
  split_and!.
  - by vm_compute.
  - done.
  - rewrite E. intros [Hn _]%NoDup_cons. apply Hn. left.
  - rewrite E, !elem_of_cons, elem_of_nil.
    intros [?|[?|[?|[]]]]; discriminate.
  - replace (split_tags (Some (merge_tags None [""]))) with (@nil string)
      by by vm_compute.
    apply not_elem_of_nil.
Qed.

(** C2, amended. The merge step joins with ", " the list that is in
    lexicographic order, has no tag twice, and holds exactly the current and
    the added tags; each of these occurs in the string. The string reads
    back as that list, so with every tag and none twice, exactly when no
    added tag holds the separator ", " and the list is not the empty tag
    alone. *)
Theorem C2_merge_tags_sorted_union (t : option string) (to_add : list string) :
  ∃ l, merge_tags t to_add = Py.join ", " l ∧
       Sorted String.le l ∧ NoDup l ∧
       (∀ tag, tag ∈ l ↔ tag ∈ split_tags t ∨ tag ∈ to_add) ∧
       (∀ tag, tag ∈ split_tags t ∨ tag ∈ to_add →
               ∃ pre post, merge_tags t to_add = pre +:+ tag +:+ post) ∧
       (split_tags (Some (merge_tags t to_add)) = l ↔
        Forall (λ tag, Py.contains ", " tag = false) to_add ∧ l ≠ [""]).
Proof.
  exists (sorted (merged_set t to_add)). split_and!.
  - done.
  - apply Sorted_sorted.
  - apply NoDup_sorted.
  - intros tag. by rewrite elem_of_sorted, elem_of_merged_set.
  - intros tag Hin. apply join_occurs.
    by rewrite elem_of_sorted, elem_of_merged_set.
  - apply split_tags_merge_tags_iff.
Qed.

(** The scenario of the specification: new added to old and sale. *)
Lemma C2_merge_tags_sorted_union_witness :
  merge_tags (Some "old, sale") ["new"] = "new, old, sale" ∧
  ∃ l, Sorted String.le l ∧ NoDup l ∧
       split_tags (Some (merge_tags (Some "old, sale") ["new"])) = l.
Proof.
  split; [by vm_compute|].
  destruct (C2_merge_tags_sorted_union (Some "old, sale") ["new"])
    as (l & _ & Hsorted & Hnodup & Hin & _ & Hback).
  exists l. split_and!; [done|done|].
  apply Hback. split.
  - by repeat constructor.
  - intros E. assert ("new" ∈ l) as Hnew by (apply Hin; right; left).
    rewrite E in Hnew. by apply list_elem_of_singleton in Hnew.
Defined.

(** C3 as stated fails: a desired tag that holds the separator is read back
    as two tags and is scheduled again, the second round changing the
    string; the empty desired tag on a product without tags is written as
    the empty string and scheduled again. *)
Lemma C3_not_idempotent_in_general :
  tags_to_add ["a, b"] (reconcile ["a, b"] None) ≠ [] ∧
  reconcile ["a, b"] (reconcile ["a, b"] None) ≠ reconcile ["a, b"] None ∧
  tags_to_add [""] (reconcile [""] None) ≠ [].
Proof. by vm_compute. Qed.

(** C3, amended. Reconciliation is idempotent (after one round nothing is
    left to add, and a second round leaves the tag string as the first one
    made it) exactly when no desired tag holds the separator ", " and,
    unless there is no desired tag at all, the product has a current tag or
    some desired tag is not empty. *)
Theorem C3_reconcile_idempotent (type_tags : list string) (t : option string) :
  Forall (λ tag, Py.contains ", " tag = false) type_tags ∧
  (split_tags t ≠ [] ∨ type_tags = [] ∨ Exists (λ tag, tag ≠ "") type_tags)
  ↔
  tags_to_add type_tags (reconcile type_tags t) = [] ∧
  reconcile type_tags (reconcile type_tags t) = reconcile type_tags t.
Proof.
  assert (∀ tag, tag ∈ tags_to_add type_tags t → tag ∈ type_tags) as Hsub.
  { intros tag. rewrite elem_of_tags_to_add. tauto. }
  split.
  - intros [Hsep Hsome].
    assert (tags_to_add type_tags (reconcile type_tags t) = []) as Hnone.
    { unfold reconcile. destruct (tags_to_add type_tags t) as [|a rest] eqn:E.
      { done. }
      rewrite <-E. rewrite <-E in Hsub.
      set (to_add := tags_to_add type_tags t) in *.
      assert (a ∈ to_add) as Ha by (rewrite E; left).
      rewrite tags_to_add_filter.
      rewrite (proj2 (split_tags_merge_tags_iff t to_add)).
      - apply filter_none. intros tag Hin Hnot.
        apply Hnot, elem_of_sorted, elem_of_merged_set.
        destruct (decide (tag ∈ split_tags t)) as [?|Hout]; [by left|right].
        by apply elem_of_tags_to_add.
      - split.
        { apply Forall_forall. intros tag Hin.
          by apply (proj1 (Forall_forall _ _) Hsep), Hsub. }
        intros Es.
        assert (∀ tag, tag ∈ split_tags t ∨ tag ∈ to_add → tag = "") as Hall.
        { intros tag Hin. apply elem_of_merged_set, elem_of_sorted in Hin.
          rewrite Es in Hin. by apply list_elem_of_singleton in Hin. }
        assert ("" ∉ split_tags t) as Hout.
        { rewrite <-(Hall a) by by right.
          by apply (elem_of_tags_to_add type_tags t a). }
        destruct Hsome as [Ht|[Hd|Hex]].
        + destruct (split_tags t) as [|x xs] eqn:Et; [done|].
          apply Hout. rewrite <-(Hall x) by (left; left). left.
        + apply Hsub in Ha. rewrite Hd in Ha. by apply elem_of_nil in Ha.
        + apply Exists_exists in Hex as (tag & Hin & Htag). apply Htag, Hall.
          destruct (decide (tag ∈ split_tags t)) as [?|Hno]; [by left|right].
          by apply elem_of_tags_to_add. }
    split; [done|]. unfold reconcile at 1. by rewrite Hnone.
  - intros [Hnone _].
    assert (∀ tag, tag ∈ type_tags →
                   tag ∈ split_tags (reconcile type_tags t)) as Hall.
    { intros tag Hin.
      destruct (decide (tag ∈ split_tags (reconcile type_tags t)))
        as [?|Hout]; [done|].
      assert (tag ∈ tags_to_add type_tags (reconcile type_tags t)) as H
        by by apply elem_of_tags_to_add.
      rewrite Hnone in H. by apply elem_of_nil in H. }
    split.
    { apply Forall_forall. intros tag Hin.
      apply (proj1 (Forall_forall _ _)
                   (split_tags_pieces (reconcile type_tags t))), Hall, Hin. }
    destruct (split_tags t) as [|x xs] eqn:Et; [|by left].
    destruct type_tags as [|a rest]; [right; by left|].
    right. right.
    destruct (decide (Exists (λ tag, tag ≠ "") (a :: rest))) as [?|Hno];
      [done|exfalso].
    apply not_Exists_Forall in Hno; [|apply _].
    assert (∀ tag, tag ∈ a :: rest → tag = "") as Hempty.
    { intros tag Hin. apply (proj1 (Forall_forall _ _) Hno) in Hin.
      cbn in Hin. by destruct (decide (tag = "")). }
    assert (a ∈ tags_to_add (a :: rest) t) as Ha.
    { apply elem_of_tags_to_add. split; [left|].
      rewrite Et. apply not_elem_of_nil. }
    specialize (Hall a (list_elem_of_here _ _)).
    unfold reconcile in Hall.
    destruct (tags_to_add (a :: rest) t) as [|b to_add] eqn:E.
    { by apply elem_of_nil in Ha. }
    rewrite <-E in Hall, Hsub.
    assert (merge_tags t (tags_to_add (a :: rest) t) = "") as Hm.
    { unfold merge_tags.
      destruct (NoDup_all_empty
                  (sorted (merged_set t (tags_to_add (a :: rest) t))))
        as [El|El]; [apply NoDup_sorted| |by rewrite El..].
      intros tag [Hin|Hin]%elem_of_sorted%elem_of_merged_set.
      - rewrite Et in Hin. by apply elem_of_nil in Hin.
      - by apply Hempty, Hsub. }
    rewrite Hm in Hall. by apply elem_of_nil in Hall.
Qed.

(** The scenario of the specification, with an empty desired tag added,
    satisfies the condition. *)
Lemma C3_reconcile_idempotent_witness :
  tags_to_add ["sale"; ""; "new"]
              (reconcile ["sale"; ""; "new"] (Some "old, sale")) = [] ∧
  reconcile ["sale"; ""; "new"]
            (reconcile ["sale"; ""; "new"] (Some "old, sale"))
    = reconcile ["sale"; ""; "new"] (Some "old, sale").
Proof.
  apply (proj1 (C3_reconcile_idempotent ["sale"; ""; "new"] (Some "old, sale"))).
  split.
  - by repeat constructor.
  - left. replace (split_tags (Some "old, sale")) with ["old"; "sale"]
      by reflexivity.
    discriminate.
Defined.

(** C9 as stated fails: the merge step trims nothing. A current tag that
    is the desired tag behind a space is another tag, so the desired tag is
    scheduled, and the output differs from that of the product that holds
    the tag without the space. *)
Lemma C9_whitespace_variants_differ :
  split_tags (Some "x,  y") = ["x"; " y"] ∧
  Py.strip <$> split_tags (Some "x,  y") = split_tags (Some "x, y") ∧
  tags_to_add ["y"] (Some "x,  y") = ["y"] ∧
  merge_tags (Some "x,  y") ["y"] = " y, x, y" ∧
  merge_tags (Some "x, y") ["y"] = "x, y" ∧
  merge_tags (Some "x,  y") ["y"] ≠ merge_tags (Some "x, y") ["y"].
Proof. by vm_compute. Qed.

(** C9, amended. Two inputs of the merge step that hold the same tags, as
    exact strings, in whatever order and with whatever repetitions, give the
    same output: these tags in lexicographic order, each once, joined with
    ", ". *)
Theorem C9_merge_tags_order_independent
    (t1 t2 : option string) (to_add1 to_add2 : list string) :
  (∀ tag, tag ∈ split_tags t1 ++ to_add1 ↔ tag ∈ split_tags t2 ++ to_add2) →
  merge_tags t1 to_add1 = merge_tags t2 to_add2 ∧
  ∃ l, Sorted String.le l ∧ NoDup l ∧
       (∀ tag, tag ∈ l ↔ tag ∈ split_tags t1 ++ to_add1) ∧
       (∀ l', Sorted String.le l' → NoDup l' →
              (∀ tag, tag ∈ l' ↔ tag ∈ split_tags t1 ++ to_add1) → l' = l) ∧
       merge_tags t1 to_add1 = Py.join ", " l ∧
       merge_tags t2 to_add2 = Py.join ", " l.
Proof.
  intros H. split; [by apply merge_tags_ext|].
  exists (sorted (merged_set t1 to_add1)). split_and!.
  - apply Sorted_sorted.
  - apply NoDup_sorted.
  - intros tag. by rewrite elem_of_sorted, elem_of_merged_set, elem_of_app.
  - intros l' Hs Hn Hin. apply sorted_unique; [done..|].
    intros tag. by rewrite Hin, elem_of_merged_set, elem_of_app.
  - done.
  - symmetry. by apply merge_tags_ext.
Qed.

(** The tags a, b, c in two orders, one with a repetition. *)
Lemma C9_merge_tags_order_independent_witness :
  merge_tags (Some "b, a") ["c"; "a"] = "a, b, c" ∧
  merge_tags (Some "a, c, a") ["b"] = "a, b, c" ∧
  merge_tags (Some "b, a") ["c"; "a"] = merge_tags (Some "a, c, a") ["b"].
Proof.
  split; [by vm_compute|]. split; [by vm_compute|].
  apply (C9_merge_tags_order_independent
           (Some "b, a") (Some "a, c, a") ["c"; "a"] ["b"]).
  intros tag.
  replace (split_tags (Some "b, a") ++ ["c"; "a"]) with ["b"; "a"; "c"; "a"]
    by reflexivity.
  replace (split_tags (Some "a, c, a") ++ ["b"]) with ["a"; "c"; "a"; "b"]
    by reflexivity.
  rewrite !elem_of_cons, !elem_of_nil. tauto.
Defined.

(** ** Running computations *)
Section running.
Import Run.

Lemma set_trace_same w : set_trace (trace w) w = w.
Proof. by destruct w. Qed.

Lemma run_bind {A B} (m : M A) (f : A → M B) w :
  (m ≫= f) w = match m w with
               | (w', Return a) => f a w'
               | (w', Raise e) => (w', Raise e)
               end.
Proof. reflexivity. Qed.

(** Unfolds the monad operations and the fields of an updated world. *)
Ltac run :=
  cbv [mbind M_bind bind mret M_ret ret emit print raise is_Exception world
       connect write_database set_trace set_keyboard set_database
       trace database clock keyboard session_fails catalog save_result
       display];
  rewrite <-?app_assoc.

Lemma run_print msg w :
  print msg w = (set_trace (trace w ++ [Printed msg]) w, Return ()).
Proof. reflexivity. Qed.

(** One round of the update loop: the write is attempted; when the call
    returns the count grows, when it raises an exception the failure is
    printed, and the loop goes on with the rest either way; an interrupt
    ends the loop. *)
Lemma apply_updates_cons verbose item rest k w :
  apply_updates verbose (item :: rest) k w =
  match save_result w (trace w) (with_merged_tags item) with
  | Failed =>
      apply_updates verbose rest k
        (set_trace (trace w ++
           [SaveAttempt (with_merged_tags item) Failed;
            Printed (UpdateFailed (title item.1))]) w)
  | Interrupted =>
      (set_trace (trace w ++
         [SaveAttempt (with_merged_tags item) Interrupted]) w,
       Raise KeyboardInterrupt)
  | r =>
      apply_updates verbose rest (S k)
        (set_trace (trace w ++
           SaveAttempt (with_merged_tags item) r ::
           (if verbose then [Printed (TagsAdded (title item.1) item.2)]
            else [])) w)
  end.
Proof.
  cbn [apply_updates]. rewrite run_bind.
  unfold try_except, save. rewrite !run_bind. unfold world.
  destruct w as [db clk kb sf cat ok df tr].
  run. by destruct (ok tr (with_merged_tags item)), verbose; run.
Qed.

Lemma save_attempts_save p r evs :
  save_attempts (SaveAttempt p r :: evs) = (p, r) :: save_attempts evs.
Proof. reflexivity. Qed.

Lemma save_attempts_printed msg evs :
  save_attempts (Printed msg :: evs) = save_attempts evs.
Proof. reflexivity. Qed.

Lemma returned_save p r evs :
  returned (SaveAttempt p r :: evs)
  = (if save_returned r then S (returned evs) else returned evs).
Proof.
  unfold returned. rewrite save_attempts_save.
  destruct r; cbn [save_returned].
  - by rewrite filter_cons_True.
  - by rewrite filter_cons_True.
  - by rewrite filter_cons_False.
  - by rewrite filter_cons_False.
Qed.

Lemma returned_printed msg evs : returned (Printed msg :: evs) = returned evs.
Proof. reflexivity. Qed.


Lemma set_trace_app evs evs' w :
  set_trace (trace (set_trace (trace w ++ evs) w) ++ evs')
            (set_trace (trace w ++ evs) w)
  = set_trace (trace w ++ evs ++ evs') w.
Proof. unfold set_trace. cbn. by rewrite <-app_assoc. Qed.

(** The update loop on a whole worklist. Either every call of [save] came
    back or raised an exception: then the loop returns, having attempted
    every item in order, and the count has grown by the number of calls that
    came back. Or a call was interrupted: then the loop ends there with the
    interrupt. A call that raised an exception is followed by its report. *)
Lemma apply_updates_spec verbose worklist : ∀ k w,
  ∃ evs,
    (∀ p, (p, Failed) ∈ save_attempts evs →
          Printed (UpdateFailed (title p)) ∈ evs) ∧
    Forall (λ a, ∃ t, save_result w t a.1 = a.2) (save_attempts evs) ∧
    (apply_updates verbose worklist k w
       = (set_trace (trace w ++ evs) w, Return (k + returned evs)) ∧
     (save_attempts evs).*1 = with_merged_tags <$> worklist ∧
     Forall (λ a, a.2 ≠ Interrupted) (save_attempts evs)
     ∨
     apply_updates verbose worklist k w
       = (set_trace (trace w ++ evs) w, Raise KeyboardInterrupt) ∧
     ∃ before p,
       save_attempts evs = before ++ [(p, Interrupted)] ∧
       Forall (λ a, a.2 ≠ Interrupted) before ∧
       (save_attempts evs).*1 `prefix_of` with_merged_tags <$> worklist).
Proof.
  induction worklist as [|item rest IH]; intros k w.
  { exists []. split_and!; [by intros ? ?%elem_of_nil|constructor|].
    left. split_and!; [|done|constructor].
    cbn. by rewrite app_nil_r, set_trace_same, Nat.add_0_r. }
  rewrite apply_updates_cons.
  set (p := with_merged_tags item).
  set (line := if verbose then [Printed (TagsAdded (title item.1) item.2)]
               else []).
  assert (∀ evs, save_attempts (line ++ evs) = save_attempts evs) as Hline
    by (intros; unfold line; by destruct verbose).
  assert (∀ evs, returned (line ++ evs) = returned evs) as Hline'
    by (intros; unfold returned; by rewrite Hline).
  assert (∀ r evs q, r ≠ Failed →
            (q, Failed) ∈ save_attempts (SaveAttempt p r :: line ++ evs) →
            (q, Failed) ∈ save_attempts evs) as Hold.
  { intros r evs q Hr. rewrite save_attempts_save, Hline.
    intros [[= _ <-]|?]%elem_of_cons; done. }
  destruct (save_result w (trace w) p) eqn:Er.
  - destruct (IH (S k) (set_trace (trace w ++ SaveAttempt p Saved :: line) w))
      as (evs & Hfail & Hshop & Hcase).
    exists (SaveAttempt p Saved :: line ++ evs). split_and!.
    + intros q Hq%Hold; [|done]. right. apply elem_of_app. right. by apply Hfail.
    + rewrite save_attempts_save, Hline. constructor; [by exists (trace w)|done].
    + rewrite set_trace_app in Hcase. cbn [app] in Hcase.
      rewrite returned_save, save_attempts_save, Hline, Hline'.
      cbn [save_returned]. rewrite Nat.add_succ_r.
      destruct Hcase as [(E & Hevs & Hno)|(E & before & q & Hb & Hno & Hpre)].
      * left. split_and!; [done|cbn; by f_equal|by constructor].
      * right. split; [done|]. exists ((p, Saved) :: before), q.
        split_and!; [by rewrite Hb|by constructor|].
        cbn. by apply prefix_cons.
  - destruct (IH (S k)
                (set_trace (trace w ++ SaveAttempt p Rejected :: line) w))
      as (evs & Hfail & Hshop & Hcase).
    exists (SaveAttempt p Rejected :: line ++ evs). split_and!.
    + intros q Hq%Hold; [|done]. right. apply elem_of_app. right. by apply Hfail.
    + rewrite save_attempts_save, Hline. constructor; [by exists (trace w)|done].
    + rewrite set_trace_app in Hcase. cbn [app] in Hcase.
      rewrite returned_save, save_attempts_save, Hline, Hline'.
      cbn [save_returned]. rewrite Nat.add_succ_r.
      destruct Hcase as [(E & Hevs & Hno)|(E & before & q & Hb & Hno & Hpre)].
      * left. split_and!; [done|cbn; by f_equal|by constructor].
      * right. split; [done|]. exists ((p, Rejected) :: before), q.
        split_and!; [by rewrite Hb|by constructor|].
        cbn. by apply prefix_cons.
  - destruct (IH k (set_trace
                      (trace w ++ [SaveAttempt p Failed;
                                   Printed (UpdateFailed (title item.1))]) w))
      as (evs & Hfail & Hshop & Hcase).
    exists (SaveAttempt p Failed ::
            Printed (UpdateFailed (title item.1)) :: evs). split_and!.
    + rewrite save_attempts_save, save_attempts_printed.
      intros q [[= ->]|Hq]%elem_of_cons.
      * right. destruct item as [product to_add]. left.
      * do 2 right. by apply Hfail.
    + rewrite save_attempts_save, save_attempts_printed.
      constructor; [by exists (trace w)|done].
    + rewrite set_trace_app in Hcase. cbn [app] in Hcase.
      rewrite returned_save, returned_printed, save_attempts_save,
        save_attempts_printed.
      cbn [save_returned].
      destruct Hcase as [(E & Hevs & Hno)|(E & before & q & Hb & Hno & Hpre)].
      * left. split_and!; [done|cbn; by f_equal|by constructor].
      * right. split; [done|]. exists ((p, Failed) :: before), q.
        split_and!; [by rewrite Hb|by constructor|].
        cbn. by apply prefix_cons.
  - exists [SaveAttempt p Interrupted]. split_and!.
    + by intros q [[=]|?%elem_of_nil]%elem_of_cons.
    + repeat constructor. by exists (trace w).
    + right. split; [done|]. exists [], p. split_and!; [done|constructor|].
      cbn. apply prefix_cons, prefix_nil.
Qed.

(** The loop and its report, when no write is interrupted. *)
Lemma update_products_spec verbose worklist w :
  (∀ t p, save_result w t p ≠ Interrupted) →
  ∃ evs,
    update_products verbose worklist w
      = (set_trace
           (trace w ++ evs ++
              [Printed (if verbose then Finished else AutoFinished);
               Printed (Updated (returned evs) (length worklist))]) w,
         Return ()) ∧
    (save_attempts evs).*1 = with_merged_tags <$> worklist ∧
    (∀ p, (p, Failed) ∈ save_attempts evs →
          Printed (UpdateFailed (title p)) ∈ evs).
Proof.
  intros Hshop.
  destruct (apply_updates_spec verbose worklist 0 w)
    as (evs & Hfail & Hres & [(E & Hevs & _)|(_ & before & p & Hb & _)]).
  - exists evs. split; [|done].
    unfold update_products. rewrite run_bind, E. by run.
  - rewrite Hb in Hres. apply Forall_app in Hres as [_ Hres].
    apply Forall_singleton in Hres as [t Ht]. by apply Hshop in Ht.
Qed.

(** *** The scan *)

Lemma foldl_scan_step mappings items : ∀ worklist n,
  foldl (scan_step mappings) (worklist, n) items
  = (worklist ++ omap (scan_product mappings) items, n + length items).
Proof.
  induction items as [|p items IH]; intros worklist n.
  - cbn. by rewrite app_nil_r, Nat.add_0_r.
  - cbn [foldl scan_step]. rewrite IH. cbn [omap list_omap length].
    rewrite <-app_assoc, Nat.add_succ_r.
    by destruct (scan_product mappings p).
Qed.

Lemma report_progress_spec n w :
  ∃ evs, report_progress n w = (set_trace (trace w ++ evs) w, Return ()) ∧
         Forall scan_event evs.
Proof.
  unfold report_progress. destruct (decide (n `mod` 250 = 0)).
  - exists [Printed (Progress n)]. split; [done|]. by repeat constructor.
  - exists []. split; [|done]. by rewrite app_nil_r, set_trace_same.
Qed.

(** The scan ends for every catalog: it raises when a fetch fails, and
    otherwise returns the entries of the products it went through, after
    those it started with. *)
Lemma scan_pages_spec mappings page : ∀ worklist n w,
  ∃ evs,
    scan_pages mappings page worklist n w
    = (set_trace (trace w ++ evs) w,
       if fetch_ok page
       then Return (worklist ++ omap (scan_product mappings) (visited page))
       else Raise ShopifyError) ∧
    Forall scan_event evs.
Proof.
  induction page as [|items|items next IH]; intros worklist n w.
  - exists [PageFetched false]. split; [done|]. by repeat constructor.
  - destruct items as [|p items].
    + exists [PageFetched true; Printed (TotalChecked n)].
      split; [|by repeat constructor].
      cbn [scan_pages fetch_ok visited omap list_omap].
      rewrite app_nil_r. by run.
    + cbn [scan_pages fetch_ok visited]. rewrite foldl_scan_step.
      rewrite run_bind. cbn [emit].
      edestruct (report_progress_spec (n + length (p :: items)))
        as (evs & E & Hevs).
      rewrite run_bind, E.
      exists (PageFetched true :: evs ++
              [Printed (TotalChecked (n + length (p :: items)))]).
      split.
      * run. by rewrite <-?app_assoc.
      * constructor; [done|]. apply Forall_app. split; [done|].
        by repeat constructor.
  - destruct items as [|p items].
    + exists [PageFetched true; Printed (TotalChecked n)].
      split; [|by repeat constructor].
      cbn [scan_pages fetch_ok visited omap list_omap].
      rewrite app_nil_r. by run.
    + cbn [scan_pages fetch_ok visited]. rewrite foldl_scan_step.
      rewrite run_bind. cbn [emit].
      edestruct (report_progress_spec (n + length (p :: items)))
        as (evs & E & Hevs).
      rewrite run_bind, E.
      edestruct IH as (evs' & -> & Hevs').
      exists (PageFetched true :: evs ++ evs').
      split.
      * cbn [set_trace trace database clock keyboard session_fails catalog
             save_result display].
        rewrite omap_app, <-!app_assoc. done.
      * constructor; [done|]. by apply Forall_app.
Qed.

Lemma scan_product_mapped mappings p item :
  scan_product mappings p = Some item →
  item.1 = p ∧ is_Some (mappings !! product_type p) ∧ item.2 ≠ [].
Proof.
  unfold scan_product. destruct (mappings !! product_type p); [|done].
  destruct (tags_to_add _ _); [done|]. intros [= <-]. eauto.
Qed.

Lemma get_products_spec mappings w :
  mappings ≠ ∅ →
  ∃ evs,
    get_products_for_type_tagging mappings w
    = (set_trace (trace w ++ Printed Searching :: evs) w,
       if fetch_ok (catalog w)
       then Return (omap (scan_product mappings) (visited (catalog w)))
       else Raise ShopifyError) ∧
    Forall scan_event evs.
Proof.
  intros Hne. unfold get_products_for_type_tagging.
  destruct (decide (mappings = ∅)); [done|].
  rewrite !run_bind. cbn [print emit]. rewrite run_bind. cbn [world].
  edestruct scan_pages_spec as (evs & -> & Hevs).
  exists evs. split; [|done]. run. done.
Qed.




(** C5. A product whose type is not a key of the mapping adds nothing to
    the worklist, whatever its tags, so every entry of the worklist has a
    mapped type; with an empty mapping the scan returns the empty worklist
    at once, fetching and comparing nothing; with an empty catalog it
    returns the empty worklist after the one fetch, having looked at no
    product. Neither is an error. *)
Theorem C5_scan_skips_unmapped_and_tolerates_empty :
  (∀ mappings p worklist n,
     mappings !! product_type p = None →
     scan_product mappings p = None ∧
     scan_step mappings (worklist, n) p = (worklist, S n)) ∧
  (∀ mappings w w' worklist item,
     get_products_for_type_tagging mappings w = (w', Return worklist) →
     item ∈ worklist → is_Some (mappings !! product_type item.1)) ∧
  (∀ w, get_products_for_type_tagging ∅ w = (w, Return [])) ∧
  (∀ mappings w,
     mappings ≠ ∅ → catalog w = LastPage [] →
     get_products_for_type_tagging mappings w
     = (set_trace (trace w ++ [Printed Searching; PageFetched true;
                               Printed (TotalChecked 0)]) w,
        Return [])).
Proof.
  split_and!.
  - intros mappings p worklist n Hp.
    assert (scan_product mappings p = None) as E.
    { unfold scan_product. by rewrite Hp. }
    split; [done|]. unfold scan_step. by rewrite E, app_nil_r.
  - intros mappings w w' worklist item Hrun Hin.
    destruct (decide (mappings = ∅)) as [->|Hne].
    { unfold get_products_for_type_tagging in Hrun.
      destruct (decide (∅ = ∅)); [|done].
      injection Hrun as _ <-. by apply elem_of_nil in Hin. }
    destruct (get_products_spec mappings w Hne) as (evs & E & _).
    rewrite E in Hrun. destruct (fetch_ok (catalog w)); [|done].
    injection Hrun as _ <-.
    apply list_elem_of_omap in Hin as (p & _ & Hp).
    by apply scan_product_mapped in Hp as (-> & ? & _).
  - intros w. unfold get_products_for_type_tagging.
    by destruct (decide (∅ = ∅)).
  - intros mappings w Hne Hcat. unfold get_products_for_type_tagging.
    destruct (decide (mappings = ∅)); [done|].
    rewrite !run_bind. cbn [print emit]. rewrite run_bind. cbn [world].
    cbn [catalog set_trace]. rewrite Hcat.
    cbn [scan_pages]. by run.
Qed.

(** *** What a computation may do to the trace *)

Ltac adds_nothing :=
  exists []; split; [by rewrite app_nil_r | apply not_elem_of_nil].
Ltac adds_one e :=
  exists [e]; split; [done | by intros [=]%list_elem_of_singleton].

Lemma appends_ret {A} (a : A) : appends_only (mret a).
Proof. intros w. adds_nothing. Qed.

Lemma appends_raise {A} e : appends_only (@raise A e).
Proof. intros w. adds_nothing. Qed.

Lemma appends_bind {A B} (m : M A) (f : A → M B) :
  appends_only m → (∀ a, appends_only (f a)) → appends_only (m ≫= f).
Proof.
  intros Hm Hf w. rewrite run_bind.
  destruct (Hm w) as (evs1 & E1 & N1). destruct (m w) as [w' [a|e]].
  - destruct (Hf a w') as (evs2 & E2 & N2). exists (evs1 ++ evs2).
    cbn in E1. rewrite E2, E1, app_assoc, elem_of_app. tauto.
  - by exists evs1.
Qed.

Lemma appends_try_except {A} (body : M A) handler :
  appends_only body → (∀ e, appends_only (handler e)) →
  appends_only (try_except body handler).
Proof.
  intros Hm Hf w. unfold try_except.
  destruct (Hm w) as (evs1 & E1 & N1). destruct (body w) as [w' [a|e]].
  - by exists evs1.
  - destruct (is_Exception e); [|by exists evs1].
    destruct (Hf e w') as (evs2 & E2 & N2). exists (evs1 ++ evs2).
    cbn in E1. rewrite E2, E1, app_assoc, elem_of_app. tauto.
Qed.

Lemma appends_emit e : e ≠ SessionCleared → appends_only (emit e).
Proof.
  intros He w. exists [e]. split; [done|].
  intros Hin%list_elem_of_singleton. congruence.
Qed.

Lemma appends_print msg : appends_only (print msg).
Proof. by apply appends_emit. Qed.

Lemma appends_world : appends_only world.
Proof. intros w. adds_nothing. Qed.

Lemma appends_connect : appends_only connect.
Proof. intros w. unfold connect. destruct (database w); adds_nothing. Qed.

Lemma appends_write_database st : appends_only (write_database st).
Proof. intros w. adds_nothing. Qed.

Lemma appends_input p : appends_only (input p).
Proof.
  intros w. unfold input. destruct (keyboard w) as [|[]]; adds_one (Asked p).
Qed.

Lemma get_user_confirmation_loop_trace message keys : ∀ t,
  ∃ evs, (get_user_confirmation_loop message keys t).1.2 = t ++ evs ∧
         SessionCleared ∉ evs.
Proof.
  induction keys as [|[s|] keys IH]; intros t; cbn [get_user_confirmation_loop].
  - adds_one (Asked message).
  - destruct (decide _).
    + adds_one (Asked message).
    + destruct (IH (t ++ [Asked message; Printed InvalidAnswer]))
        as (evs & -> & N).
      exists ([Asked message; Printed InvalidAnswer] ++ evs).
      rewrite app_assoc. split; [done|].
      rewrite elem_of_app, !elem_of_cons, elem_of_nil.
      intros [[?|[?|?]]|?]; done.
  - adds_one (Asked message).
Qed.

Lemma appends_get_user_confirmation message :
  appends_only (get_user_confirmation message).
Proof.
  intros w. unfold get_user_confirmation.
  destruct (get_user_confirmation_loop_trace message (keyboard w) (trace w))
    as (evs & E & N).
  exists evs. split; [|done].
  by destruct (get_user_confirmation_loop _ _ _) as [[ks t] r].
Qed.

Lemma appends_setup_session : appends_only setup_session.
Proof.
  intros w. unfold setup_session. destruct (session_fails w).
  - adds_nothing.
  - adds_one SessionActivated.
Qed.

Lemma scan_event_not_cleared evs :
  Forall scan_event evs → SessionCleared ∉ evs.
Proof. intros H Hin. by apply (proj1 (Forall_forall _ _) H) in Hin. Qed.

Lemma appends_get_products mappings :
  appends_only (get_products_for_type_tagging mappings).
Proof.
  intros w. destruct (decide (mappings = ∅)) as [->|Hne].
  - unfold get_products_for_type_tagging.
    destruct (decide (∅ = ∅)); [|done]. adds_nothing.
  - destruct (get_products_spec mappings w Hne) as (evs & -> & Hevs).
    exists (Printed Searching :: evs). split; [done|].
    apply not_elem_of_cons. split; [done|]. by apply scan_event_not_cleared.
Qed.

Create HintDb appends discriminated.
#[local] Hint Resolve appends_ret appends_raise appends_print appends_world
  appends_connect appends_write_database appends_input
  appends_get_user_confirmation appends_setup_session appends_get_products
  : appends.
#[local] Hint Extern 2 (appends_only (_ ≫= _)) =>
  apply appends_bind; [|intros ?] : appends.
#[local] Hint Extern 2 (appends_only (try_except _ _)) =>
  apply appends_try_except; [|intros ?] : appends.
#[local] Hint Extern 1 (appends_only (emit _)) =>
  apply appends_emit; discriminate : appends.
#[local] Hint Extern 3 (appends_only (if ?b then _ else _)) =>
  destruct b : appends.
#[local] Hint Extern 3 (appends_only (match ?x with _ => _ end)) =>
  destruct x : appends.

Lemma appends_save p : appends_only (save p).
Proof. unfold save. eauto 10 with appends. Qed.

Lemma appends_apply_updates verbose worklist : ∀ k,
  appends_only (apply_updates verbose worklist k).
Proof.
  induction worklist as [|item rest IH]; intros k; cbn [apply_updates].
  - apply appends_ret.
  - apply appends_bind; [|done].
    pose proof (appends_save (with_merged_tags item)).
    eauto 10 with appends.
Qed.

Lemma appends_update_products verbose worklist :
  appends_only (update_products verbose worklist).
Proof.
  unfold update_products.
  pose proof (appends_apply_updates verbose worklist 0).
  eauto 10 with appends.
Qed.

Lemma appends_load : appends_only load_product_type_mappings.
Proof. unfold load_product_type_mappings. eauto 10 with appends. Qed.

Lemma appends_display worklist : appends_only (display_products worklist).
Proof.
  unfold display_products. destruct worklist; [eauto with appends|].
  apply appends_bind; [apply appends_world|]. intros w.
  destruct (display w); eauto 10 with appends.
Qed.

(** *** The two workflows *)

(** A workflow has the shape
    [try: print; setup_session; body / except Exception: handler /
     finally: clear_session]. Whatever happens inside, the last thing it
    does is to clear the session, once. *)
Lemma workflow_trace {A} msg (body : M A) handler w :
  appends_only body → (∀ e, appends_only (handler e)) →
  ∃ evs,
    trace (try_finally
             (try_except (print msg;; setup_session;; body) handler)
             clear_session w).1
    = trace w ++ evs ++ [SessionCleared] ∧
    (SessionCleared ∉ evs) ∧
    (session_fails w = false →
     ∃ evs', evs = Printed msg :: SessionActivated :: evs').
Proof.
  intros Hbody Hhandler.
  assert (appends_only (try_except body handler)) as Hrest
    by by apply appends_try_except.
  unfold try_finally.
  destruct (session_fails w) eqn:Hsf.
  - assert (H : appends_only
                (try_except (print msg;; setup_session;; body) handler)).
    { apply appends_try_except; [|done]. eauto 10 with appends. }
    destruct (H w) as (evs & E & N).
    destruct (try_except _ _ w) as [w' r]. cbn in E.
    exists evs. split_and!; [|done..].
    unfold clear_session, emit. cbn. by rewrite E, <-app_assoc.
  - assert (try_except (print msg;; setup_session;; body) handler w
            = try_except body handler
                (set_trace (trace w ++ [Printed msg; SessionActivated]) w))
      as ->.
    { unfold try_except, setup_session.
      rewrite run_bind, run_print, run_bind.
      cbn [set_trace session_fails]. rewrite Hsf.
      unfold emit. cbn [set_trace trace]. by rewrite <-app_assoc. }
    destruct (Hrest (set_trace (trace w ++ [Printed msg; SessionActivated]) w))
      as (evs & E & N).
    destruct (try_except body handler _) as [w' r]. cbn in E.
    exists (Printed msg :: SessionActivated :: evs). split_and!.
    + unfold clear_session, emit. cbn. by rewrite E, <-!app_assoc.
    + rewrite !not_elem_of_cons. done.
    + eauto.
Qed.

Lemma load_fails w :
  database w = None →
  load_product_type_mappings w
  = (set_trace (trace w ++ [Printed LoadFailed]) w, Return ∅).
Proof.
  intros Hdb. unfold load_product_type_mappings, try_except.
  rewrite run_bind. unfold connect. rewrite Hdb. done.
Qed.

(** C7. When the mapping cannot be loaded the run stops there: the failure
    is reported, no page of the catalog is fetched, no product is written,
    and the workflow returns after clearing the session. *)
Theorem C7_load_failure_stops_the_run w :
  database w = None → session_fails w = false →
  manage_product_type_tags w
  = (set_trace (trace w ++ [Printed Starting; SessionActivated;
                            Printed LoadFailed; Printed NoMappings;
                            SessionCleared]) w,
     Return ()) ∧
  auto_manage_tags_without_confirmation w
  = (set_trace (trace w ++ [Printed AutoStarting; SessionActivated;
                            Printed LoadFailed; Printed NoMappings;
                            SessionCleared]) w,
     Return ()).
Proof.
  intros Hdb Hsf.
  unfold manage_product_type_tags, auto_manage_tags_without_confirmation.
  unfold try_finally, try_except, setup_session, clear_session.
  rewrite !run_bind, !run_print, !run_bind.
  cbn [set_trace session_fails]. rewrite Hsf.
  unfold emit at 1 3. cbn [set_trace trace database].
  rewrite !run_bind, !load_fails by done.
  destruct (decide (∅ = ∅)); [|done].
  rewrite !run_print. unfold emit. cbn [set_trace trace].
  by rewrite <-!app_assoc.
Qed.

(** A world whose database cannot be read. *)
Lemma C7_load_failure_stops_the_run_witness :
  let w := mkWorld None 0 [Line "s"] false (LastPage []) (λ _ _, Saved) Shown [] in
  manage_product_type_tags w
  = (set_trace [Printed Starting; SessionActivated; Printed LoadFailed;
                Printed NoMappings; SessionCleared] w, Return ()) ∧
  auto_manage_tags_without_confirmation w
  = (set_trace [Printed AutoStarting; SessionActivated; Printed LoadFailed;
                Printed NoMappings; SessionCleared] w, Return ()).
Proof.
  exact (C7_load_failure_stops_the_run
           (mkWorld None 0 [Line "s"] false (LastPage []) (λ _ _, Saved) Shown [])
           eq_refl eq_refl).
Defined.

(** C8. In the interactive and in the unattended workflow alike, clearing
    the session is the last thing done, exactly once, whichever way the run
    ends: completion, early return, an exception that is caught, or an
    interrupt that is not. When the session could be opened, it was opened
    right at the start. *)
Theorem C8_session_cleared_on_every_path w :
  (∃ evs,
     trace (manage_product_type_tags w).1
     = trace w ++ evs ++ [SessionCleared] ∧
     (SessionCleared ∉ evs) ∧
     (session_fails w = false →
      ∃ evs', evs = Printed Starting :: SessionActivated :: evs')) ∧
  (∃ evs,
     trace (auto_manage_tags_without_confirmation w).1
     = trace w ++ evs ++ [SessionCleared] ∧
     (SessionCleared ∉ evs) ∧
     (session_fails w = false →
      ∃ evs', evs = Printed AutoStarting :: SessionActivated :: evs')).
Proof.
  split.
  - apply workflow_trace; [|eauto with appends].
    apply appends_bind; [apply appends_load|]. intros mappings.
    destruct (decide _); [eauto with appends|].
    apply appends_bind; [eauto with appends|]. intros [|item worklist].
    { eauto with appends. }
    apply appends_bind; [apply appends_display|]. intros _.
    apply appends_bind; [eauto with appends|]. intros [|]; cbn [negb].
    + apply appends_update_products.
    + eauto with appends.
  - apply workflow_trace; [|eauto with appends].
    apply appends_bind; [apply appends_load|]. intros mappings.
    destruct (decide _); [eauto with appends|].
    apply appends_bind; [eauto with appends|]. intros [|item worklist].
    { eauto with appends. }
    apply appends_bind; [eauto with appends|]. intros _.
    apply appends_update_products.
Qed.

End running.


(** ** The mapping store *)
Section mapping_store.
Import Run.

Lemma startswith_semicolon c x :
  Py.startswith ";" (String c x) = true ↔ c = ";"%char.
Proof.
  unfold Py.startswith. cbn [String.prefix].
  destruct (ascii_dec ";" c) as [<-|Hc]; [by destruct x|].
  split; [done|congruence].
Qed.

Lemma split_semicolon_here s :
  Py.split ";" (String ";" s) = "" :: Py.split ";" s.
Proof.
  unfold Py.split. cbn [Py.split_go].
  by rewrite (proj2 (startswith_semicolon _ _)).
Qed.

Lemma split_semicolon_other c s :
  c ≠ ";"%char →
  Py.split ";" (String c s) = Py.cons_head c (Py.split ";" s).
Proof.
  intros Hc. unfold Py.split. cbn [Py.split_go].
  destruct (Py.startswith ";" (String c s)) eqn:E; [|done].
  by apply startswith_semicolon in E.
Qed.

(** With the one-character separator, splitting distributes over an
    occurrence of the separator. *)
Lemma split_semicolon_app a b :
  Py.split ";" (a +:+ ";" +:+ b) = Py.split ";" a ++ Py.split ";" b.
Proof.
  induction a as [|c a IH].
  - apply split_semicolon_here.
  - change (String c a +:+ ";" +:+ b) with (String c (a +:+ ";" +:+ b)).
    destruct (decide (c = ";"%char)) as [->|Hc].
    + by rewrite !split_semicolon_here, IH.
    + rewrite !split_semicolon_other, IH by done.
      pose proof (split_go_not_nil ";" 0 a) as Hne.
      unfold Py.split. by destruct (Py.split_go ";" 0 a).
Qed.

(** A leading, a trailing and a doubled separator each leave an empty tag
    in the parsed list. *)
Lemma parse_stored_tags_empty_piece a b :
  "" ∈ parse_stored_tags (";" +:+ b) ∧
  "" ∈ parse_stored_tags (a +:+ ";") ∧
  "" ∈ parse_stored_tags (a +:+ ";;" +:+ b).
Proof.
  unfold parse_stored_tags, TAG_SEPARATOR. split_and!.
  - change (";" +:+ b) with (String ";" b).
    rewrite split_semicolon_here. by left.
  - change (a +:+ ";") with (a +:+ ";" +:+ "").
    rewrite split_semicolon_app, fmap_app, elem_of_app. right. by left.
  - change (a +:+ ";;" +:+ b) with (a +:+ ";" +:+ String ";" b).
    rewrite split_semicolon_app, split_semicolon_here, fmap_app, elem_of_app.
    right. by left.
Qed.

Lemma build_mappings_go_other (rows : list (string * string)) k :
  ∀ mappings, k ∉ rows.*1 → foldl insert_row mappings rows !! k = mappings !! k.
Proof.
  induction rows as [|[k' v'] rows IH]; intros mappings Hk; [done|].
  cbn in Hk. apply not_elem_of_cons in Hk as [Hne Hk].
  cbn [foldl]. rewrite IH by done. by apply lookup_insert_ne.
Qed.

Lemma build_mappings_go_lookup (rows : list (string * string)) k v :
  ∀ mappings, NoDup rows.*1 → (k, v) ∈ rows →
  foldl insert_row mappings rows !! k = Some (parse_stored_tags v).
Proof.
  induction rows as [|[k' v'] rows IH]; intros mappings Hnd Hin.
  { by apply elem_of_nil in Hin. }
  cbn in Hnd. apply NoDup_cons in Hnd as [Hk' Hnd].
  apply elem_of_cons in Hin as [[= <- <-]|Hin]; cbn [foldl].
  - rewrite build_mappings_go_other by done. apply lookup_insert_eq.
  - by apply IH.
Qed.

(** The loaded mapping holds, for each stored product type, the parsed
    tags of its row. *)
Lemma loaded_mapping_lookup st ptype row :
  table st !! ptype = Some row →
  build_mappings (select_product_type_tags st) !! ptype
  = Some (parse_stored_tags (row_tags row)).
Proof.
  intros Hrow. unfold build_mappings, select_product_type_tags.
  apply build_mappings_go_lookup.
  - apply NoDup_fst_map_to_list.
  - apply elem_of_map_to_list. by rewrite lookup_fmap, Hrow.
Qed.

(** The empty string sorts first. *)
Lemma sorted_empty_first (s : gset string) :
  "" ∈ s → ∃ rest, sorted s = "" :: rest.
Proof.
  intros Hin%elem_of_sorted.
  pose proof (Sorted_sorted s) as Hs.
  apply (Sorted_StronglySorted String.le) in Hs.
  destruct (sorted s) as [|x rest]; [by apply elem_of_nil in Hin|].
  exists rest. f_equal.
  apply elem_of_cons in Hin as [->|Hin]; [done|].
  apply StronglySorted_inv in Hs as [_ Hx].
  apply (proj1 (Forall_forall _ _) Hx) in Hin.
  by destruct x.
Qed.

(** C6. The upsert is reached through option 2 of the menu alone (line
    327), and the menu makes the check before the store is touched: when the
    product type or the tags typed in are empty once trimmed, it reports
    that both are required, does not call the upsert, and leaves the store
    as it was; only that action is given up, and the menu returns. *)
Theorem C6_menu_rejects_empty_fields w raw_type raw_tags ks :
  keyboard w = Line raw_type :: Line raw_tags :: ks →
  Py.strip raw_type = "" ∨ Py.strip raw_tags = "" →
  admin_menu_add w
  = (set_trace (trace w ++ [Asked AskProductType; Asked AskTags;
                            Printed FieldsRequired])
               (set_keyboard ks w),
     Return ()) ∧
  database (admin_menu_add w).1 = database w.
Proof.
  intros Hkb Hempty.
  assert (admin_menu_add w
          = (set_trace (trace w ++ [Asked AskProductType; Asked AskTags;
                                    Printed FieldsRequired])
                       (set_keyboard ks w), Return ())) as E.
  { unfold admin_menu_add. rewrite run_bind. unfold input at 1.
    rewrite Hkb. rewrite run_bind. unfold input at 1.
    cbn [keyboard set_keyboard set_trace].
    assert (bool_decide (Py.strip raw_type ≠ "") &&
            bool_decide (Py.strip raw_tags ≠ "") = false) as ->.
    { destruct Hempty as [-> | ->];
        rewrite ?andb_false_r; by rewrite ?(bool_decide_eq_false_2 ("" ≠ "")) by auto. }
    rewrite run_print. cbn [set_trace set_keyboard trace database clock
                            keyboard session_fails catalog save_result
       display].
    by rewrite <-!app_assoc. }
  split; [done|]. by rewrite E.
Qed.

(** A product type made of blanks. *)
Lemma C6_menu_rejects_empty_fields_witness :
  let w := mkWorld (Some (mkStore ∅ 1)) 7 [Line "  "; Line "a;b"] false
                   (LastPage []) (λ _ _, Saved) Shown [] in
  admin_menu_add w
  = (set_trace [Asked AskProductType; Asked AskTags; Printed FieldsRequired]
               (set_keyboard [] w),
     Return ()) ∧
  database (admin_menu_add w).1 = database w.
Proof.
  exact (C6_menu_rejects_empty_fields
           (mkWorld (Some (mkStore ∅ 1)) 7 [Line "  "; Line "a;b"] false
                    (LastPage []) (λ _ _, Saved) Shown [])
           "  " "a;b" [] eq_refl (or_introl eq_refl)).
Defined.

(** C10 as stated fails in its premise: a non-empty wire string can hold
    the empty tag (after a trailing separator, say), and then the empty tag
    of the mapping is not scheduled. *)
Lemma C10_empty_tag_may_be_current :
  "" ∈ split_tags (Some "a, ") ∧
  "" ∈ parse_stored_tags "x;" ∧
  tags_to_add (parse_stored_tags "x;") (Some "a, ") = ["x"].
Proof. split_and!; [by vm_compute; right; left..|by vm_compute]. Qed.

(** C10, amended. The stored-tag parser keeps empty pieces: a leading, a
    trailing or a doubled ";" in the stored string puts the empty tag in the
    loaded mapping of that product type; for a product of that type whose
    current tags do not hold the empty tag, the scanner schedules it, and
    the merge writes it as the first piece of the joined string. *)
Theorem C10_empty_stored_piece_is_scheduled st ptype row a b p :
  table st !! ptype = Some row →
  row_tags row = ";" +:+ b ∨ row_tags row = a +:+ ";" ∨
    row_tags row = a +:+ ";;" +:+ b →
  product_type p = ptype →
  "" ∉ split_tags (tags p) →
  ∃ type_tags to_add rest,
    build_mappings (select_product_type_tags st) !! ptype = Some type_tags ∧
    "" ∈ type_tags ∧
    scan_product (build_mappings (select_product_type_tags st)) p
      = Some (p, to_add) ∧
    "" ∈ to_add ∧
    merge_tags (tags p) to_add = Py.join ", " ("" :: rest).
Proof.
  intros Hrow Hshape Hp Hcur.
  pose proof (loaded_mapping_lookup st ptype row Hrow) as Hload.
  set (type_tags := parse_stored_tags (row_tags row)) in *.
  assert ("" ∈ type_tags) as Hin.
  { unfold type_tags.
    destruct (parse_stored_tags_empty_piece a b) as (H1 & H2 & H3).
    by destruct Hshape as [-> | [-> | ->]]. }
  assert ("" ∈ tags_to_add type_tags (tags p)) as Hadd
    by by apply elem_of_tags_to_add.
  destruct (sorted_empty_first (merged_set (tags p)
                                  (tags_to_add type_tags (tags p))))
    as [rest Hrest].
  { apply elem_of_merged_set. by right. }
  exists type_tags, (tags_to_add type_tags (tags p)), rest.
  split_and!; [done..| |done|].
  - unfold scan_product. rewrite Hp, Hload.
    destruct (tags_to_add type_tags (tags p)); [|done].
    by apply elem_of_nil in Hadd.
  - unfold merge_tags. by rewrite Hrest.
Qed.

(** A stored string with a doubled separator, on the product of the
    scenario. *)
Lemma C10_empty_stored_piece_is_scheduled_witness :
  let st := mkStore {["Shoes" := mkRow 1 "sale;;new" 0 0]} 2 in
  let p := mkProduct 1 "A" "Shoes" (Some "old, sale") in
  ∃ type_tags to_add rest,
    build_mappings (select_product_type_tags st) !! "Shoes" = Some type_tags ∧
    "" ∈ type_tags ∧
    scan_product (build_mappings (select_product_type_tags st)) p
      = Some (p, to_add) ∧
    "" ∈ to_add ∧
    merge_tags (tags p) to_add = Py.join ", " ("" :: rest).
Proof.
  refine (C10_empty_stored_piece_is_scheduled
            (mkStore {["Shoes" := mkRow 1 "sale;;new" 0 0]} 2) "Shoes"
            (mkRow 1 "sale;;new" 0 0) "sale" "new"
            (mkProduct 1 "A" "Shoes" (Some "old, sale")) _ _ eq_refl _).
  - apply lookup_singleton_eq.
  - right. right. reflexivity.
  - apply (proj1 (bool_decide_eq_false _)). reflexivity.
Defined.

End mapping_store.

(** * Further properties of the script *)

(** ** Trimming and the internal separator *)
Section stored_format.

Local Abbreviation no_semicolon := (λ t : string, Py.contains ";" t = false).

Lemma lstrip_no_lead s : no_lead (Py.lstrip s).
Proof.
  induction s as [|c s IH]; [done|]. cbn [Py.lstrip].
  by destruct (Py.isspace c) eqn:E.
Qed.

Lemma lstrip_id s : no_lead s → Py.lstrip s = s.
Proof. destruct s as [|c s]; [done|]. cbn [no_lead Py.lstrip]. by intros ->. Qed.

Lemma rstrip_cons c s :
  Py.rstrip (String c s)
  = match Py.rstrip s with
    | "" => if Py.isspace c then "" else String c ""
    | r => String c r
    end.
Proof. reflexivity. Qed.

Lemma rstrip_idem s : Py.rstrip (Py.rstrip s) = Py.rstrip s.
Proof.
  induction s as [|c s IH]; [done|]. rewrite rstrip_cons.
  destruct (Py.rstrip s) as [|a r] eqn:E.
  - destruct (Py.isspace c) eqn:Ec; [done|].
    rewrite rstrip_cons. cbn [Py.rstrip]. by rewrite Ec.
  - rewrite rstrip_cons, IH. done.
Qed.

Lemma rstrip_no_lead s : no_lead s → no_lead (Py.rstrip s).
Proof.
  destruct s as [|c s]; [done|]. cbn [no_lead]. intros Hc.
  rewrite rstrip_cons. destruct (Py.rstrip s); [by rewrite Hc|done].
Qed.

(** Trimming twice is trimming once. *)
Lemma strip_idem s : Py.strip (Py.strip s) = Py.strip s.
Proof.
  unfold Py.strip.
  rewrite (lstrip_id (Py.rstrip (Py.lstrip s))).
  - apply rstrip_idem.
  - apply rstrip_no_lead, lstrip_no_lead.
Qed.

Lemma contains_semicolon_cons c s :
  Py.contains ";" (String c s) = false ↔
  c ≠ ";"%char ∧ Py.contains ";" s = false.
Proof.
  cbn [Py.contains]. rewrite orb_false_iff.
  split; intros [H1 H2]; (split; [|done]).
  - intros ->. by rewrite (proj2 (startswith_semicolon _ _)) in H1.
  - apply not_true_is_false. by intros ?%startswith_semicolon.
Qed.

Lemma lstrip_no_semicolon s : no_semicolon s → no_semicolon (Py.lstrip s).
Proof.
  induction s as [|c s IH]; [done|]. intros H. cbn [Py.lstrip].
  destruct (Py.isspace c); [|done].
  apply IH. by apply contains_semicolon_cons in H as [_ ?].
Qed.

Lemma rstrip_no_semicolon s : no_semicolon s → no_semicolon (Py.rstrip s).
Proof.
  induction s as [|c s IH]; [done|].
  intros [Hc Hs]%contains_semicolon_cons. rewrite rstrip_cons.
  specialize (IH Hs). destruct (Py.rstrip s) as [|a r].
  - destruct (Py.isspace c); [done|]. by apply contains_semicolon_cons.
  - by apply contains_semicolon_cons.
Qed.

Lemma split_semicolon_pieces s : Forall no_semicolon (Py.split ";" s).
Proof.
  induction s as [|c s IH]; [by repeat constructor|].
  destruct (decide (c = ";"%char)) as [->|Hc].
  - rewrite split_semicolon_here. by constructor.
  - rewrite split_semicolon_other by done.
    pose proof (split_go_not_nil ";" 0 s) as Hne.
    unfold Py.split in *. destruct (Py.split_go ";" 0 s) as [|p ps]; [done|].
    apply Forall_cons in IH as [Hp Hps]. constructor; [|done].
    by apply contains_semicolon_cons.
Qed.

Lemma split_semicolon_none x : no_semicolon x → Py.split ";" x = [x].
Proof.
  induction x as [|c x IH]; [done|].
  intros [Hc Hx]%contains_semicolon_cons.
  by rewrite split_semicolon_other, IH.
Qed.

Lemma split_join_semicolon l :
  l ≠ [] → Forall no_semicolon l → Py.split ";" (Py.join ";" l) = l.
Proof.
  induction l as [|x [|y l] IH]; [done| |]; intros _ Hl.
  - apply Forall_cons in Hl as [Hx _]. by apply split_semicolon_none.
  - apply Forall_cons in Hl as [Hx Hl].
    change (Py.join ";" (x :: y :: l))
      with (x +:+ ";" +:+ Py.join ";" (y :: l)).
    rewrite split_semicolon_app, split_semicolon_none by done.
    cbn [app]. f_equal. by apply IH.
Qed.

Lemma length_append (a b : string) :
  String.length (a +:+ b) = String.length a + String.length b.
Proof.
  induction a as [|c a IH]; [done|].
  change (String c a +:+ b) with (String c (a +:+ b)). cbn [String.length].
  by rewrite IH.
Qed.

Lemma length_substring_0 n s :
  n ≤ String.length s → String.length (String.substring 0 n s) = n.
Proof.
  revert s. induction n as [|n IH]; intros s Hn.
  - by destruct s.
  - destruct s as [|c s]; cbn in Hn; [lia|].
    cbn [String.substring String.length]. rewrite IH; lia.
Qed.

Lemma substring_full s : String.substring 0 (String.length s) s = s.
Proof.
  induction s as [|c s IH]; [done|].
  cbn [String.length String.substring]. by rewrite IH.
Qed.

Lemma substring_split n s :
  n ≤ String.length s →
  s = String.substring 0 n s +:+ String.substring n (String.length s - n) s.
Proof.
  revert s. induction n as [|n IH]; intros s Hn.
  - rewrite Nat.sub_0_r, substring_full. by destruct s.
  - destruct s as [|c s]; cbn in Hn; [lia|].
    cbn [String.length String.substring Nat.sub].
    change (String c s
            = String c (String.substring 0 n s +:+
                        String.substring n (String.length s - n) s)).
    f_equal. apply IH. lia.
Qed.

(** X1. Every tag loaded from the store is trimmed and free of the
    internal separator, whatever string was stored. *)
Theorem parse_stored_tags_clean tags_str tag :
  tag ∈ parse_stored_tags tags_str →
  Py.strip tag = tag ∧ Py.contains ";" tag = false.
Proof.
  unfold parse_stored_tags, TAG_SEPARATOR.
  intros (piece & -> & Hin)%list_elem_of_fmap. split.
  - apply strip_idem.
  - apply rstrip_no_semicolon, lstrip_no_semicolon.
    by apply (proj1 (Forall_forall _ _) (split_semicolon_pieces tags_str)).
Qed.

Lemma parse_stored_tags_clean_witness :
  "new" ∈ parse_stored_tags "sale; new " ∧
  Py.strip "new" = "new" ∧ Py.contains ";" "new" = false.
Proof.
  assert ("new" ∈ parse_stored_tags "sale; new ") as H by (by right; left).
  split; [exact H|].
  exact (parse_stored_tags_clean "sale; new " "new" H).
Defined.

Lemma format_tags_short tag_list max_length :
  String.length (Py.join ";" tag_list) ≤ max_length →
  format_tags tag_list max_length = Py.join ";" tag_list.
Proof.
  intros Hfit. unfold format_tags, TAG_SEPARATOR.
  destruct (decide _); [lia|done].
Qed.

(** X2. [format_tags] gives the joined tags when they fit, and otherwise
    the first [max_length] characters followed by three dots: never more
    than [max_length + 3] characters. *)
Theorem format_tags_bounded tag_list max_length :
  let tags_str := Py.join ";" tag_list in
  String.length (format_tags tag_list max_length) ≤ max_length + 3 ∧
  (String.length tags_str ≤ max_length →
   format_tags tag_list max_length = tags_str) ∧
  (max_length < String.length tags_str →
   String.length (format_tags tag_list max_length) = max_length + 3 ∧
   ∃ rest, tags_str = String.substring 0 max_length tags_str +:+ rest ∧
           format_tags tag_list max_length
           = String.substring 0 max_length tags_str +:+ "...").
Proof.
  intros tags_str. unfold format_tags, TAG_SEPARATOR. fold tags_str.
  destruct (decide (max_length < String.length tags_str)) as [Hlong|Hshort].
  - assert (String.length (String.substring 0 max_length tags_str +:+ "...")
            = max_length + 3) as Hlen.
    { rewrite length_append, length_substring_0 by lia. done. }
    split_and!; [lia|lia|]. intros _. split; [done|].
    exists (String.substring max_length
              (String.length tags_str - max_length) tags_str).
    split; [|done]. apply substring_split. lia.
  - split_and!; [lia|done|lia].
Qed.

(** X3. What [format_tags] shows can be stored and loaded back: for a
    non-empty list of trimmed tags without ";" that fits the length, the
    stored-tag parser returns the list. *)
Theorem format_then_parse_stored_tags tag_list max_length :
  tag_list ≠ [] →
  Forall (λ tag, Py.strip tag = tag ∧ Py.contains ";" tag = false) tag_list →
  String.length (Py.join ";" tag_list) ≤ max_length →
  parse_stored_tags (format_tags tag_list max_length) = tag_list.
Proof.
  intros Hne Hclean Hfit. rewrite format_tags_short by done.
  unfold parse_stored_tags, TAG_SEPARATOR.
  rewrite split_join_semicolon; [|done|].
  - clear Hne Hfit. induction Hclean as [|tag l [Htag _] _ IH]; [done|].
    cbn. by rewrite Htag, IH.
  - eapply Forall_impl; [exact Hclean|]. by intros ? [_ ?].
Qed.

Lemma format_then_parse_stored_tags_witness :
  parse_stored_tags (format_tags ["sale"; "new in"] 50) = ["sale"; "new in"].
Proof.
  apply format_then_parse_stored_tags.
  - discriminate.
  - repeat constructor.
  - apply Nat.leb_le. reflexivity.
Defined.

End stored_format.

(** ** More on the reconciler *)
Section more_reconciliation.

(** X4. A product is left out of the worklist exactly when its type has no
    mapping or when it already carries every tag of its type. *)
Theorem scan_product_None_iff (mappings : gmap string (list string)) p :
  scan_product mappings p = None ↔
  mappings !! product_type p = None ∨
  ∃ type_tags, mappings !! product_type p = Some type_tags ∧
               ∀ tag, tag ∈ type_tags → tag ∈ split_tags (tags p).
Proof.
  unfold scan_product.
  destruct (mappings !! product_type p) as [type_tags|] eqn:E;
    [|split; [by left|done]].
  destruct (tags_to_add type_tags (tags p)) as [|a rest] eqn:Eadd.
  - split; [intros _|done]. right. exists type_tags. split; [done|].
    intros tag Hin. destruct (decide (tag ∈ split_tags (tags p))); [done|].
    assert (tag ∈ tags_to_add type_tags (tags p)) as H
      by by apply elem_of_tags_to_add.
    rewrite Eadd in H. by apply elem_of_nil in H.
  - split; [done|]. intros [[=]|(? & [= <-] & Hall)].
    assert (a ∈ tags_to_add type_tags (tags p)) as H by (rewrite Eadd; left).
    apply elem_of_tags_to_add in H as [Hin Hout]. destruct Hout. by apply Hall.
Qed.

(** X5. Once the merged tags of a worklist entry are written, the product
    carries every tag its type owes, and nothing beyond its former tags and
    those of its type; identifier, title and type are untouched. *)
Theorem merged_entry_complete (mappings : gmap string (list string))
    p item type_tags :
  scan_product mappings p = Some item →
  mappings !! product_type p = Some type_tags →
  ∃ l, tags (with_merged_tags item) = Some (Py.join ", " l) ∧
       (∀ tag, tag ∈ type_tags → tag ∈ l) ∧
       (∀ tag, tag ∈ l → tag ∈ split_tags (tags p) ∨ tag ∈ type_tags) ∧
       product_id (with_merged_tags item) = product_id p ∧
       title (with_merged_tags item) = title p ∧
       product_type (with_merged_tags item) = product_type p.
Proof.
  unfold scan_product. intros Hscan Hmap. rewrite Hmap in Hscan.
  destruct (tags_to_add type_tags (tags p)) as [|a rest] eqn:Eadd; [done|].
  injection Hscan as <-. rewrite <-Eadd.
  exists (sorted (merged_set (tags p) (tags_to_add type_tags (tags p)))).
  split_and!; try done.
  - intros tag Hin. apply elem_of_sorted, elem_of_merged_set.
    destruct (decide (tag ∈ split_tags (tags p))); [by left|right].
    by apply elem_of_tags_to_add.
  - intros tag [?|Hin%elem_of_tags_to_add]%elem_of_sorted%elem_of_merged_set;
      [by left|right]. by destruct Hin.
Qed.

Lemma merged_entry_complete_witness :
  let p := mkProduct 1 "A" "Shoes" (Some "old, sale") in
  ∃ l, tags (with_merged_tags (p, ["new"])) = Some (Py.join ", " l) ∧
       (∀ tag, tag ∈ ["sale"; "new"] → tag ∈ l) ∧
       (∀ tag, tag ∈ l → tag ∈ split_tags (tags p) ∨ tag ∈ ["sale"; "new"]) ∧
       product_id (with_merged_tags (p, ["new"])) = product_id p ∧
       title (with_merged_tags (p, ["new"])) = title p ∧
       product_type (with_merged_tags (p, ["new"])) = product_type p.
Proof.
  refine (merged_entry_complete {["Shoes" := ["sale"; "new"]]}
            (mkProduct 1 "A" "Shoes" (Some "old, sale")) _ ["sale"; "new"]
            _ _).
  - unfold scan_product. cbn [product_type tags].
    rewrite lookup_singleton_eq.
    by replace (tags_to_add ["sale"; "new"] (Some "old, sale")) with ["new"]
      by by vm_compute.
  - apply lookup_singleton_eq.
Defined.

End more_reconciliation.

(** ** Asking the operator *)
Section confirmation.
Import Run Admin.

Lemma get_user_confirmation_loop_bad message bad a rest : ∀ t,
  Forall (λ s, ¬ accepted s) bad → accepted a →
  get_user_confirmation_loop message ((Line <$> bad) ++ Line a :: rest) t
  = (rest,
     t ++ (bad ≫= λ _, [Asked message; Printed InvalidAnswer])
       ++ [Asked message],
     Return (bool_decide (Py.lower (Py.strip a) = "s"))).
Proof.
  induction bad as [|b bad IH]; intros t Hbad Ha.
  - cbn. destruct (decide _); [done|]. by destruct n.
  - apply Forall_cons in Hbad as [Hb Hbad].
    cbn [fmap list_fmap app get_user_confirmation_loop].
    destruct (decide _) as [Hacc|_]; [by destruct Hb|].
    rewrite IH by done. cbn [mbind list_bind]. by rewrite <-!app_assoc.
Qed.

Lemma get_user_confirmation_accepts message bad a rest w :
  keyboard w = (Line <$> bad) ++ Line a :: rest →
  Forall (λ s, ¬ accepted s) bad → accepted a →
  get_user_confirmation message w
  = (set_trace (trace w ++
                (bad ≫= λ _, [Asked message; Printed InvalidAnswer]) ++
                [Asked message])
               (set_keyboard rest w),
     Return (bool_decide (Py.lower (Py.strip a) = "s"))).
Proof.
  intros Hkb Hbad Ha. unfold get_user_confirmation.
  by rewrite Hkb, get_user_confirmation_loop_bad.
Qed.

(** X6. The confirmation is decided by the first answer that, trimmed and
    lower-cased, is [s] or [n]: every answer before it is refused with a
    message and asked again, and the input after it is left unread. *)
Theorem get_user_confirmation_first_accepted message bad a rest w :
  keyboard w = (Line <$> bad) ++ Line a :: rest →
  Forall (λ s, ¬ accepted s) bad → accepted a →
  get_user_confirmation message w
  = (set_trace (trace w ++
                (bad ≫= λ _, [Asked message; Printed InvalidAnswer]) ++
                [Asked message])
               (set_keyboard rest w),
     Return (bool_decide (Py.lower (Py.strip a) = "s"))).
Proof. apply get_user_confirmation_accepts. Qed.

Lemma get_user_confirmation_first_accepted_witness :
  let w := mkWorld None 0 [Line "yes"; Line " S "; Line "n"] false
                   (LastPage []) (λ _ _, Saved) Shown [] in
  get_user_confirmation (AskApply 2) w
  = (set_trace [Asked (AskApply 2); Printed InvalidAnswer; Asked (AskApply 2)]
               (set_keyboard [Line "n"] w),
     Return true).
Proof.
  refine (get_user_confirmation_first_accepted (AskApply 2) ["yes"] " S "
            [Line "n"]
            (mkWorld None 0 [Line "yes"; Line " S "; Line "n"] false
                     (LastPage []) (λ _ _, Saved) Shown [])
            eq_refl _ _).
  - constructor; [|constructor].
    apply (proj1 (bool_decide_eq_false _)). reflexivity.
  - apply (bool_decide_eq_true_1 _). reflexivity.
Defined.

Lemma get_user_confirmation_loop_eof message bad : ∀ t,
  Forall (λ s, ¬ accepted s) bad →
  get_user_confirmation_loop message (Line <$> bad) t
  = ([],
     t ++ (bad ≫= λ _, [Asked message; Printed InvalidAnswer])
       ++ [Asked message],
     Raise EOFError).
Proof.
  induction bad as [|b bad IH]; intros t Hbad; [done|].
  apply Forall_cons in Hbad as [Hb Hbad].
  cbn [fmap list_fmap get_user_confirmation_loop].
  destruct (decide _) as [Hacc|_]; [by destruct Hb|].
  rewrite IH by done. cbn [mbind list_bind]. by rewrite <-!app_assoc.
Qed.

(** X7. When the input ends before any accepted answer, the confirmation
    raises [EOFError] after refusing every line; it never answers by
    itself. *)
Theorem get_user_confirmation_end_of_input message bad w :
  keyboard w = Line <$> bad →
  Forall (λ s, ¬ accepted s) bad →
  get_user_confirmation message w
  = (set_trace (trace w ++
                (bad ≫= λ _, [Asked message; Printed InvalidAnswer]) ++
                [Asked message])
               (set_keyboard [] w),
     Raise EOFError).
Proof.
  intros Hkb Hbad. unfold get_user_confirmation.
  by rewrite Hkb, get_user_confirmation_loop_eof.
Qed.

Lemma get_user_confirmation_end_of_input_witness :
  let w := mkWorld None 0 [Line "sim"] false (LastPage []) (λ _ _, Saved) Shown [] in
  get_user_confirmation (AskApply 2) w
  = (set_trace [Asked (AskApply 2); Printed InvalidAnswer; Asked (AskApply 2)]
               (set_keyboard [] w),
     Raise EOFError).
Proof.
  refine (get_user_confirmation_end_of_input (AskApply 2) ["sim"]
            (mkWorld None 0 [Line "sim"] false (LastPage []) (λ _ _, Saved) Shown [])
            eq_refl _).
  constructor; [|constructor].
  apply (proj1 (bool_decide_eq_false _)). reflexivity.
Defined.

End confirmation.

(** ** Storing, removing and loading mappings *)
Section store_operations.
Import Run Admin.

Ltac crunch :=
  cbv [mbind M_bind bind mret M_ret ret emit print raise is_Exception world
       negb connect write_database try_except set_trace set_keyboard
       set_database
       trace database clock keyboard session_fails catalog save_result
       display];
  rewrite <-?app_assoc.

Lemma build_mappings_fmap st :
  build_mappings (select_product_type_tags st)
  = (parse_stored_tags ∘ row_tags) <$> table st.
Proof.
  apply map_eq. intros k. rewrite lookup_fmap.
  destruct (table st !! k) as [row|] eqn:E.
  - by apply loaded_mapping_lookup.
  - unfold build_mappings, select_product_type_tags.
    rewrite build_mappings_go_other; [done|].
    intros ([k' v] & -> & Hin)%list_elem_of_fmap.
    apply elem_of_map_to_list in Hin. cbn [fst] in E.
    by rewrite lookup_fmap, E in Hin.
Qed.

Lemma load_ok w st :
  database w = Some st →
  load_product_type_mappings w
  = (set_trace (trace w ++ [Printed (MappingsLoaded (size (table st)))]) w,
     Return ((parse_stored_tags ∘ row_tags) <$> table st)).
Proof.
  intros Hdb. destruct w as [db clk kb sf cat ok df tr]. cbn in Hdb. subst db.
  unfold load_product_type_mappings. crunch.
  by rewrite build_mappings_fmap, map_size_fmap.
Qed.

Lemma load_product_type_mappings_spec_aux w :
  load_product_type_mappings w
  = match database w with
    | Some st =>
        (set_trace (trace w ++ [Printed (MappingsLoaded (size (table st)))]) w,
         Return ((parse_stored_tags ∘ row_tags) <$> table st))
    | None =>
        (set_trace (trace w ++ [Printed LoadFailed]) w, Return ∅)
    end.
Proof.
  destruct (database w) as [st|] eqn:Hdb.
  - by apply load_ok.
  - by apply load_fails.
Qed.

(** X8. Loading never raises and changes nothing but the trace: from a
    readable store it returns one entry per stored product type, holding the
    parsed tags of its row, and prints their number; from an unreadable one
    it reports the failure and returns the empty mapping. *)
Theorem load_product_type_mappings_spec w :
  load_product_type_mappings w
  = match database w with
    | Some st =>
        (set_trace (trace w ++ [Printed (MappingsLoaded (size (table st)))]) w,
         Return ((parse_stored_tags ∘ row_tags) <$> table st))
    | None =>
        (set_trace (trace w ++ [Printed LoadFailed]) w, Return ∅)
    end.
Proof. apply load_product_type_mappings_spec_aux. Qed.

Lemma add_mapping_fresh w st ptype tag_str :
  database w = Some st → table st !! ptype = None →
  add_mapping ptype tag_str w
  = (set_trace (trace w ++ [Printed (MappingAdded ptype)])
       (set_database
          (Some (mkStore (<[ptype := mkRow (next_id st) tag_str
                                           (clock w) (clock w)]> (table st))
                         (S (next_id st)))) w),
     Return ()).
Proof.
  intros Hdb Hnew. destruct w as [db clk kb sf cat ok df tr]. cbn in Hdb. subst db.
  unfold add_mapping. crunch. rewrite Hnew. by crunch.
Qed.

Lemma add_mapping_existing w st ptype tag_str existing bad a rest :
  database w = Some st → table st !! ptype = Some existing →
  keyboard w = (Line <$> bad) ++ Line a :: rest →
  Forall (λ s, ¬ accepted s) bad → accepted a →
  let asked := (bad ≫= λ _, [Asked (AskUpdateExisting ptype);
                             Printed InvalidAnswer]) ++
               [Asked (AskUpdateExisting ptype)] in
  add_mapping ptype tag_str w
  = if bool_decide (Py.lower (Py.strip a) = "s")
    then (set_trace (trace w ++ asked ++ [Printed (MappingUpdated ptype)])
            (set_keyboard rest
               (set_database
                  (Some (mkStore
                           (<[ptype := mkRow (row_id existing) tag_str
                                             (created_at existing) (clock w)]>
                              (table st))
                           (next_id st))) w)),
          Return ())
    else (set_trace (trace w ++ asked ++ [Printed MappingCancelled])
            (set_keyboard rest w),
          Return ()).
Proof.
  intros Hdb Hold Hkb Hbad Ha asked.
  unfold add_mapping, try_except. rewrite run_bind.
  unfold connect at 1. rewrite Hdb, Hold. rewrite run_bind.
  rewrite (get_user_confirmation_accepts _ bad a rest w) by done.
  fold asked.
  destruct w as [db clk kb sf cat ok df tr]. cbn in Hdb, Hkb. subst db.
  destruct (bool_decide (Py.lower (Py.strip a) = "s")); by crunch.
Qed.

(** X9. Storing a mapping for a new product type and loading again gives
    the former mapping with one more entry, the parsed new tags; the call
    returns normally and the next identifier grows by one. *)
Theorem add_mapping_then_load w st ptype tag_str :
  database w = Some st → table st !! ptype = None →
  ∃ w' st',
    add_mapping ptype tag_str w = (w', Return ()) ∧
    database w' = Some st' ∧ next_id st' = S (next_id st) ∧
    ∀ m, (load_product_type_mappings w).2 = Return m →
         (load_product_type_mappings w').2
         = Return (<[ptype := parse_stored_tags tag_str]> m).
Proof.
  intros Hdb Hnew.
  set (st' := mkStore (<[ptype := mkRow (next_id st) tag_str
                                        (clock w) (clock w)]> (table st))
                      (S (next_id st))).
  exists (set_trace (trace w ++ [Printed (MappingAdded ptype)])
            (set_database (Some st') w)), st'.
  split_and!.
  - by apply add_mapping_fresh.
  - reflexivity.
  - reflexivity.
  - intros m. rewrite (load_ok w st) by done.
    rewrite (load_ok _ st') by reflexivity.
    cbn [snd]. intros [= <-]. unfold st'. cbn [table].
    by rewrite fmap_insert.
Qed.

Lemma add_mapping_then_load_witness :
  let w := mkWorld (Some (mkStore ∅ 1)) 7 [] false (LastPage [])
                   (λ _ _, Saved) Shown [] in
  ∃ w' st',
    add_mapping "Shoes" "sale; new" w = (w', Return ()) ∧
    database w' = Some st' ∧ next_id st' = 2 ∧
    ∀ m, (load_product_type_mappings w).2 = Return m →
         (load_product_type_mappings w').2
         = Return (<["Shoes" := parse_stored_tags "sale; new"]> m).
Proof.
  exact (add_mapping_then_load
           (mkWorld (Some (mkStore ∅ 1)) 7 [] false (LastPage [])
                    (λ _ _, Saved) Shown [])
           (mkStore ∅ 1) "Shoes" "sale; new" eq_refl (lookup_empty _)).
Defined.

(** X10. For a product type already stored, the upsert asks first. On yes
    the tags are replaced, not merged, the row keeps its identifier and
    creation time, and its update time becomes now; on no the store is left
    as it was. Other product types are never touched. *)
Theorem add_mapping_replaces_on_yes w st ptype tag_str existing bad a rest :
  database w = Some st → table st !! ptype = Some existing →
  keyboard w = (Line <$> bad) ++ Line a :: rest →
  Forall (λ s, ¬ accepted s) bad → accepted a →
  ∃ w' st',
    add_mapping ptype tag_str w = (w', Return ()) ∧
    database w' = Some st' ∧ keyboard w' = rest ∧
    next_id st' = next_id st ∧
    (∀ other, other ≠ ptype → table st' !! other = table st !! other) ∧
    table st' !! ptype
    = Some (if bool_decide (Py.lower (Py.strip a) = "s")
            then mkRow (row_id existing) tag_str (created_at existing)
                       (clock w)
            else existing).
Proof.
  intros Hdb Hold Hkb Hbad Ha.
  rewrite (add_mapping_existing w st ptype tag_str existing bad a rest)
    by done.
  destruct (bool_decide (Py.lower (Py.strip a) = "s")).
  - eexists _, _. split_and!; try reflexivity.
    + intros other Hne. cbn [table]. by rewrite lookup_insert_ne.
    + cbn [table]. by rewrite lookup_insert_eq.
  - exists (set_trace
              (trace w ++
               ((bad ≫= λ _, [Asked (AskUpdateExisting ptype);
                              Printed InvalidAnswer]) ++
                [Asked (AskUpdateExisting ptype)]) ++
               [Printed MappingCancelled])
              (set_keyboard rest w)), st.
    split_and!; try done.
Qed.

Lemma add_mapping_replaces_on_yes_witness :
  let st := mkStore {["Shoes" := mkRow 1 "red;new" 3 3]} 2 in
  let w := mkWorld (Some st) 7 [Line "s"] false (LastPage [])
                   (λ _ _, Saved) Shown [] in
  ∃ w' st',
    add_mapping "Shoes" "blue" w = (w', Return ()) ∧
    database w' = Some st' ∧ keyboard w' = [] ∧
    next_id st' = 2 ∧
    (∀ other, other ≠ "Shoes" → table st' !! other = table st !! other) ∧
    table st' !! "Shoes" = Some (mkRow 1 "blue" 3 7).
Proof.
  refine (add_mapping_replaces_on_yes
            (mkWorld (Some (mkStore {["Shoes" := mkRow 1 "red;new" 3 3]} 2))
                     7 [Line "s"] false (LastPage []) (λ _ _, Saved) Shown [])
            (mkStore {["Shoes" := mkRow 1 "red;new" 3 3]} 2)
            "Shoes" "blue" (mkRow 1 "red;new" 3 3) [] "s" []
            eq_refl _ eq_refl _ _).
  - apply lookup_singleton_eq.
  - constructor.
  - apply (bool_decide_eq_true_1 _). reflexivity.
Defined.

End store_operations.

(** ** Removing mappings and importing the spreadsheet *)
Section removal_and_import.
Import Run Admin.

Lemma remove_mapping_ok w st ptype :
  database w = Some st →
  remove_mapping ptype w
  = (set_database (Some (mkStore (delete ptype (table st)) (next_id st))) w,
     Return (if decide (is_Some (table st !! ptype))
             then Removed else NotFound)).
Proof.
  intros Hdb. destruct w as [db clk kb sf cat ok df tr]. cbn in Hdb. subst db.
  reflexivity.
Qed.

(** X11. Removing a product type and loading again gives the former
    mapping without that type, every other entry as before; the report says
    removed exactly when the type was stored, and nothing is an error when
    it was not. *)
Theorem remove_mapping_then_load w st ptype :
  database w = Some st →
  ∃ w',
    remove_mapping ptype w
    = (w', Return (if decide (is_Some (table st !! ptype))
                   then Removed else NotFound)) ∧
    ∀ m, (load_product_type_mappings w).2 = Return m →
         (load_product_type_mappings w').2 = Return (delete ptype m).
Proof.
  intros Hdb. eexists. split; [by apply remove_mapping_ok|].
  intros m. rewrite !load_product_type_mappings_spec_aux.
  cbn [database set_database]. rewrite Hdb. cbn [snd table].
  intros [= <-]. by rewrite fmap_delete.
Qed.

Lemma remove_mapping_then_load_witness :
  let st := mkStore {["Shoes" := mkRow 1 "sale" 3 3]} 2 in
  let w := mkWorld (Some st) 7 [] false (LastPage []) (λ _ _, Saved) Shown [] in
  ∃ w',
    remove_mapping "Shoes" w
    = (w', Return (if decide (is_Some (table st !! "Shoes"))
                   then Removed else NotFound)) ∧
    ∀ m, (load_product_type_mappings w).2 = Return m →
         (load_product_type_mappings w').2 = Return (delete "Shoes" m).
Proof.
  exact (remove_mapping_then_load
           (mkWorld (Some (mkStore {["Shoes" := mkRow 1 "sale" 3 3]} 2)) 7 []
                    false (LastPage []) (λ _ _, Saved) Shown [])
           (mkStore {["Shoes" := mkRow 1 "sale" 3 3]} 2) "Shoes" eq_refl).
Defined.

(** X12. Removing is idempotent: a second removal of the same product type
    changes nothing and reports that the type was not found. *)
Theorem remove_mapping_twice w st ptype :
  database w = Some st →
  remove_mapping ptype (remove_mapping ptype w).1
  = ((remove_mapping ptype w).1, Return NotFound).
Proof.
  intros Hdb. rewrite (remove_mapping_ok w st) by done. cbn [fst].
  rewrite (remove_mapping_ok _ (mkStore (delete ptype (table st)) (next_id st)))
    by reflexivity.
  cbn [table next_id]. rewrite delete_delete_eq, lookup_delete_eq.
  destruct (decide (is_Some None)) as [[? [=]]|_].
  by destruct w.
Qed.

Lemma remove_mapping_twice_witness :
  let w := mkWorld (Some (mkStore {["Shoes" := mkRow 1 "sale" 3 3]} 2)) 7 []
                   false (LastPage []) (λ _ _, Saved) Shown [] in
  remove_mapping "Shoes" (remove_mapping "Shoes" w).1
  = ((remove_mapping "Shoes" w).1, Return NotFound).
Proof.
  exact (remove_mapping_twice
           (mkWorld (Some (mkStore {["Shoes" := mkRow 1 "sale" 3 3]} 2)) 7 []
                    false (LastPage []) (λ _ _, Saved) Shown [])
           (mkStore {["Shoes" := mkRow 1 "sale" 3 3]} 2) "Shoes" eq_refl).
Defined.

(** X13. Storing a new product type and removing it again gives back the
    table as it was, but not its identifier counter: identifiers are not
    reused. *)
Theorem add_then_remove_mapping w st ptype tag_str :
  database w = Some st → table st !! ptype = None →
  ∃ w' st',
    remove_mapping ptype (add_mapping ptype tag_str w).1
    = (w', Return Removed) ∧
    database w' = Some st' ∧ table st' = table st ∧
    next_id st' = S (next_id st).
Proof.
  intros Hdb Hnew. rewrite (add_mapping_fresh w st) by done. cbn [fst].
  erewrite remove_mapping_ok by reflexivity.
  cbn [table next_id]. rewrite lookup_insert_eq.
  destruct (decide (is_Some (Some _))) as [_|[]]; [|by eexists].
  eexists _, _. split_and!; try reflexivity.
  cbn [table]. by rewrite delete_insert_eq, delete_id.
Qed.

Lemma add_then_remove_mapping_witness :
  let w := mkWorld (Some (mkStore ∅ 1)) 7 [] false (LastPage [])
                   (λ _ _, Saved) Shown [] in
  ∃ w' st',
    remove_mapping "Shoes" (add_mapping "Shoes" "sale" w).1
    = (w', Return Removed) ∧
    database w' = Some st' ∧ table st' = ∅ ∧ next_id st' = 2.
Proof.
  exact (add_then_remove_mapping
           (mkWorld (Some (mkStore ∅ 1)) 7 [] false (LastPage [])
                    (λ _ _, Saved) Shown [])
           (mkStore ∅ 1) "Shoes" "sale" eq_refl (lookup_empty _)).
Defined.

End removal_and_import.

(** ** Importing the spreadsheet *)
Section spreadsheet_import.
Import Run Admin.

Implicit Types (st : Store) (rows : list (Cell * Cell)).

Lemma import_row_cases now st row :
  import_row now st row = None ∧ sheet_entries [row] = [] ∨
  import_row now st row = Some st ∧ sheet_entries [row] = [] ∨
  ∃ k v, import_row now st row = Some (insert_or_replace now k v st) ∧
         sheet_entries [row] = [(k, v)].
Proof. destruct row as [[|a|] [|b|]]; cbn; eauto 6. Qed.

Lemma sheet_entries_cons row rows :
  sheet_entries (row :: rows) = sheet_entries [row] ++ sheet_entries rows.
Proof. unfold sheet_entries. cbn. by destruct row as [[|a|] [|b|]]. Qed.

Lemma sheet_entries_app rows1 rows2 :
  sheet_entries (rows1 ++ rows2) = sheet_entries rows1 ++ sheet_entries rows2.
Proof. apply omap_app. Qed.

(** When the loop ends without raising, the tags stored are those of the
    sheet, a later row winning over an earlier one, over those stored
    before. *)
Lemma import_rows_finished now rows : ∀ st st',
  import_rows now st rows = (st', true) →
  row_tags <$> table st'
  = list_to_map (reverse (sheet_entries rows)) ∪ (row_tags <$> table st) ∧
  next_id st' = next_id st + length (sheet_entries rows).
Proof.
  induction rows as [|row rows IH]; intros st st' Hrun.
  - injection Hrun as <-. cbn. by rewrite (left_id_L ∅ (∪)), Nat.add_0_r.
  - cbn [import_rows] in Hrun. rewrite sheet_entries_cons.
    destruct (import_row_cases now st row)
      as [[E1 E2]|[[E1 E2]|(k & v & E1 & E2)]];
      rewrite E1 in Hrun; rewrite E2; [done| |].
    + by apply IH.
    + apply IH in Hrun as [-> ->]. cbn [app length table next_id insert_or_replace].
      rewrite reverse_cons, list_to_map_app. cbn [list_to_map foldr].
      rewrite fmap_insert. cbn [row_tags].
      split; [|lia].
      rewrite <-(assoc_L (∪)). f_equal.
      by rewrite <-insert_union_l, (left_id_L ∅ (∪)).
Qed.

(** Whether the loop raises depends on the rows alone. *)
Lemma import_rows_flag now1 now2 rows : ∀ st1 st2,
  (import_rows now1 st1 rows).2 = (import_rows now2 st2 rows).2.
Proof.
  induction rows as [|row rows IH]; intros st1 st2; [done|].
  cbn [import_rows]. destruct row as [[|a|] [|b|]]; cbn; try done; apply IH.
Qed.

Lemma import_rows_grows now rows : ∀ st,
  dom (table st) ⊆ dom (table (import_rows now st rows).1) ∧
  next_id st ≤ next_id (import_rows now st rows).1.
Proof.
  induction rows as [|row rows IH]; intros st; [done|].
  cbn [import_rows].
  destruct (import_row_cases now st row)
    as [[E1 _]|[[E1 _]|(k & v & E1 & _)]]; rewrite E1; [done|apply IH|].
  destruct (IH (insert_or_replace now k v st)) as [Hdom Hid].
  cbn [insert_or_replace table next_id] in *. split; [|lia].
  etrans; [apply dom_insert_subseteq|exact Hdom].
Qed.

Lemma import_done now sheet st st' committed :
  import_from_spreadsheet now sheet st = (st', committed, ImportDone) →
  committed = true ∧
  ∃ rows, sheet = Frame true true rows ∧
          import_rows now st rows = (st', true).
Proof.
  unfold import_from_spreadsheet.
  destruct sheet as [| |[] [] rows]; try done.
  cbn [negb]. destruct (import_rows now st rows) as [st1 []] eqn:E; [|done].
  intros [= <- <-]. eauto.
Qed.

(** The rows the loop leaves: a product type of the sheet has a row whose
    identifier was not in use before and whose two dates are the time of the
    import; the rows of the other product types are as they were. *)
Lemma import_rows_rows now rows : ∀ st st',
  import_rows now st rows = (st', true) →
  ∀ k,
    (k ∈ (sheet_entries rows).*1 →
     ∃ row, table st' !! k = Some row ∧
            next_id st ≤ row_id row < next_id st' ∧
            created_at row = now ∧ updated_at row = now) ∧
    (k ∉ (sheet_entries rows).*1 → table st' !! k = table st !! k).
Proof.
  induction rows as [|row rows IH]; intros st st' Hrun k.
  { injection Hrun as <-. split; [by intros ?%elem_of_nil|done]. }
  cbn [import_rows] in Hrun. rewrite sheet_entries_cons.
  destruct (import_row_cases now st row)
    as [[E1 E2]|[[E1 E2]|(k0 & v & E1 & E2)]];
    rewrite E1 in Hrun; rewrite E2; [done| |].
  { by apply IH. }
  pose proof (import_rows_finished now rows _ _ Hrun) as [_ Hid].
  destruct (IH _ _ Hrun k) as [Hin Hout].
  cbn [insert_or_replace table next_id] in Hid, Hin, Hout.
  cbn [app fmap list_fmap fst].
  destruct (decide (k ∈ (sheet_entries rows).*1)) as [Hk|Hk].
  - split; [|intros Hn; exfalso; apply Hn; by right]. intros _.
    destruct (Hin Hk) as (r & Hr & Hbounds & Hc & Hu).
    exists r. split_and!; [done|lia|lia|done|done].
  - rewrite (Hout Hk). destruct (decide (k = k0)) as [->|Hne].
    + split; [|intros Hn; exfalso; apply Hn; left]. intros _.
      rewrite lookup_insert_eq. eexists. split; [done|].
      cbn [row_id created_at updated_at]. split_and!; [lia|lia|done|done].
    + rewrite lookup_insert_ne by done. split; [|done].
      by intros [->|?]%elem_of_cons.
Qed.

(** X14. When the import reports success it has committed, and the tags
    then stored are those of the rows that hold two strings, trimmed, a
    later row winning over an earlier one with the same product type, over
    the tags stored before. Each product type of the sheet then has a row
    with an identifier that no row had before and with both dates at the
    time of the import, also when it replaces a row; the rows of the other
    product types are untouched, and the counter of identifiers has grown by
    the number of rows imported. *)
Theorem import_from_spreadsheet_done now sheet st st' committed :
  import_from_spreadsheet now sheet st = (st', committed, ImportDone) →
  committed = true ∧
  ∃ rows,
    sheet = Frame true true rows ∧
    row_tags <$> table st'
    = list_to_map (reverse (sheet_entries rows)) ∪ (row_tags <$> table st) ∧
    next_id st' = next_id st + length (sheet_entries rows) ∧
    (∀ k, k ∈ (sheet_entries rows).*1 →
          ∃ row, table st' !! k = Some row ∧
                 next_id st ≤ row_id row < next_id st' ∧
                 created_at row = now ∧ updated_at row = now) ∧
    (∀ k, k ∉ (sheet_entries rows).*1 → table st' !! k = table st !! k).
Proof.
  intros (-> & rows & -> & Hrun)%import_done. split; [done|].
  exists rows. split; [done|].
  destruct (import_rows_finished now rows _ _ Hrun) as [Htags Hid].
  split_and!; [done|done|..]; intros k; by apply (import_rows_rows now rows).
Qed.

(** A sheet whose third row replaces the first, in a store that holds a
    row for Shoes and one for Bag. *)
Lemma import_from_spreadsheet_done_witness :
  let sheet := Frame true true [(Text " Shoes ", Text "sale;new");
                                 (Text "Hat", NaN);
                                 (Text "Shoes", Text " red ")] in
  let st := mkStore {["Shoes" := mkRow 1 "old" 3 4; "Bag" := mkRow 2 "b" 3 3]}
                    3 in
  let st' := mkStore {["Shoes" := mkRow 4 "red" 7 7; "Bag" := mkRow 2 "b" 3 3]}
                     5 in
  true = true ∧
  ∃ rows,
    sheet = Frame true true rows ∧
    row_tags <$> table st'
    = list_to_map (reverse (sheet_entries rows)) ∪ (row_tags <$> table st) ∧
    next_id st' = next_id st + length (sheet_entries rows) ∧
    (∀ k, k ∈ (sheet_entries rows).*1 →
          ∃ row, table st' !! k = Some row ∧
                 next_id st ≤ row_id row < next_id st' ∧
                 created_at row = 7 ∧ updated_at row = 7) ∧
    (∀ k, k ∉ (sheet_entries rows).*1 → table st' !! k = table st !! k).
Proof.
  apply (import_from_spreadsheet_done 7
           (Frame true true [(Text " Shoes ", Text "sale;new");
                             (Text "Hat", NaN);
                             (Text "Shoes", Text " red ")])
           (mkStore {["Shoes" := mkRow 1 "old" 3 4; "Bag" := mkRow 2 "b" 3 3]}
                    3)).
  vm_compute. reflexivity.
Defined.

(** X15. Importing the same sheet again changes no stored tags: a second
    successful import leaves every product type with the tags the first one
    gave it. *)
Theorem import_from_spreadsheet_twice now1 now2 sheet st st1 committed :
  import_from_spreadsheet now1 sheet st = (st1, committed, ImportDone) →
  ∃ st2,
    import_from_spreadsheet now2 sheet st1 = (st2, true, ImportDone) ∧
    row_tags <$> table st2 = row_tags <$> table st1.
Proof.
  intros (-> & rows & -> & Hrun)%import_done.
  pose proof (import_rows_flag now1 now2 rows st st1) as Hflag.
  rewrite Hrun in Hflag. cbn [snd] in Hflag.
  destruct (import_rows now2 st1 rows) as [st2 flag] eqn:Hrun2.
  cbn [snd] in Hflag. subst flag.
  exists st2. split.
  - unfold import_from_spreadsheet. cbn [negb]. by rewrite Hrun2.
  - apply (import_rows_finished now2) in Hrun2 as [-> _].
    apply (import_rows_finished now1) in Hrun as [-> _].
    rewrite (assoc_L (∪)). f_equal. apply (idemp_L (∪)).
Qed.

Lemma import_from_spreadsheet_twice_witness :
  let sheet := Frame true true [(Text " Shoes ", Text "sale;new")] in
  ∃ st2,
    import_from_spreadsheet 9 sheet (mkStore {["Shoes" := mkRow 1 "sale;new" 7 7]} 2)
    = (st2, true, ImportDone) ∧
    row_tags <$> table st2
    = row_tags <$> table (mkStore {["Shoes" := mkRow 1 "sale;new" 7 7]} 2).
Proof.
  apply (import_from_spreadsheet_twice 7 9
           (Frame true true [(Text " Shoes ", Text "sale;new")])
           (mkStore ∅ 1) _ true).
  vm_compute. reflexivity.
Defined.

(** X16. Whatever the sheet and however the import ends, no stored
    product type disappears and the identifier counter never goes back. *)
Theorem import_from_spreadsheet_keeps_types now sheet st :
  dom (table st) ⊆ dom (table (import_from_spreadsheet now sheet st).1.1) ∧
  next_id st ≤ next_id (import_from_spreadsheet now sheet st).1.1.
Proof.
  unfold import_from_spreadsheet.
  destruct sheet as [| |[] [] rows]; try done. cbn [negb].
  pose proof (import_rows_grows now rows st) as H.
  by destruct (import_rows now st rows) as [st1 []].
Qed.

Lemma import_rows_stops now good bad rest : ∀ st,
  Forall (λ row, is_Some (import_row now st row)) good →
  import_row now st bad = None →
  import_rows now st (good ++ bad :: rest)
  = ((import_rows now st good).1, false) ∧
  (import_rows now st good).2 = true.
Proof.
  assert (∀ st1 st2 row, is_Some (import_row now st1 row) →
                         is_Some (import_row now st2 row)) as Hany.
  { intros st1 st2 [[|a|] [|b|]]; cbn; eauto; by intros [? [=]]. }
  assert (∀ st1 st2 row, import_row now st1 row = None →
                         import_row now st2 row = None) as Hnone.
  { by intros st1 st2 [[|a|] [|b|]]. }
  induction good as [|row good IH]; intros st Hgood Hbad.
  - cbn. by rewrite Hbad.
  - apply Forall_cons in Hgood as [[st1 E] Hgood].
    cbn [app import_rows]. rewrite E. apply IH.
    + eapply Forall_impl; [exact Hgood|]. intros r. apply Hany.
    + by eapply Hnone.
Qed.

(** X17. A row holding something that is neither missing nor a string
    stops the import with an error. The menu then leaves the store exactly
    as it was, the rows before the bad one included, because nothing was
    committed; the start-up routine commits anyway and keeps the rows
    imported before the bad one. *)
Theorem import_stopped_by_bad_row now good bad rest st :
  Forall (λ row, is_Some (import_row now st row)) good →
  import_row now st bad = None →
  let sheet := Frame true true (good ++ bad :: rest) in
  admin_menu_import now sheet st = (st, ImportError) ∧
  (table st = ∅ →
   ∃ st', setup_database now sheet (Some st) = (st', WasEmpty ImportError) ∧
          row_tags <$> table st'
          = list_to_map (reverse (sheet_entries good))).
Proof.
  intros Hgood Hbad sheet.
  destruct (import_rows_stops now good bad rest st Hgood Hbad) as [Hrun Hfin].
  split.
  - unfold admin_menu_import, sheet, import_from_spreadsheet. cbn [negb].
    by rewrite Hrun.
  - intros Hempty. unfold setup_database, sheet, import_from_spreadsheet.
    rewrite Hempty, map_size_empty. cbn [negb].
    destruct (decide (0 = 0)); [|done]. rewrite Hrun.
    eexists. split; [done|].
    destruct (import_rows now st good) as [st1 flag] eqn:E.
    cbn [snd fst] in *. subst flag.
    apply (import_rows_finished now) in E as [-> _].
    by rewrite Hempty, fmap_empty, (right_id_L ∅ (∪)).
Qed.

Lemma import_stopped_by_bad_row_witness :
  let sheet := Frame true true [(Text "Shoes", Text "sale");
                                 (Text "Hat", Other);
                                 (Text "Bag", Text "new")] in
  admin_menu_import 7 sheet (mkStore ∅ 1) = (mkStore ∅ 1, ImportError) ∧
  (table (mkStore ∅ 1) = ∅ →
   ∃ st', setup_database 7 sheet (Some (mkStore ∅ 1))
          = (st', WasEmpty ImportError) ∧
          row_tags <$> table st'
          = list_to_map (reverse (sheet_entries [(Text "Shoes", Text "sale")]))).
Proof.
  refine (import_stopped_by_bad_row 7 [(Text "Shoes", Text "sale")]
            (Text "Hat", Other) [(Text "Bag", Text "new")] (mkStore ∅ 1) _ _).
  - repeat constructor. cbn. eauto.
  - reflexivity.
Defined.

End spreadsheet_import.

(** ** How the computations change the world *)
Section taming.
Import Run Admin.

Context (K : World → Prop) (R : relation (list Key)) (P : Event → Prop).
Context `{!PreOrder R}.
Hypothesis K_closed : ∀ w w', K w → evolves R P w w' → K w'.
Hypothesis P_printed : ∀ msg, P (Printed msg).
Hypothesis P_fetched : ∀ ok, P (PageFetched ok).
Hypothesis P_activated : P SessionActivated.
Hypothesis P_cleared : P SessionCleared.

Lemma evolves_refl w : evolves R P w w.
Proof.
  exists []. split_and!; [|done|done]. destruct w. cbn. by rewrite app_nil_r.
Qed.

Lemma evolves_trans w1 w2 w3 :
  evolves R P w1 w2 → evolves R P w2 w3 → evolves R P w1 w3.
Proof.
  intros (evs1 & E1 & R1 & P1) (evs2 & E2 & R2 & P2).
  exists (evs1 ++ evs2). split_and!.
  - rewrite E2. rewrite E1 at 1 2 3 4 5 6 7. cbn. by rewrite <-app_assoc.
  - by etrans.
  - by apply Forall_app.
Qed.

Lemma evolves_emit e w : P e → evolves R P w (set_trace (trace w ++ [e]) w).
Proof. intros He. exists [e]. split_and!; [done|done|by constructor]. Qed.

Lemma tame_ret {A} (a : A) : tame K R P (mret a).
Proof. intros w _. apply evolves_refl. Qed.

Lemma tame_raise {A} e : tame K R P (@raise A e).
Proof. intros w _. apply evolves_refl. Qed.

(** Sequencing, with what is known of the value passed on. *)
Lemma tame_bind_result {A B} (m : M A) (f : A → M B) :
  tame K R P m →
  (∀ a, (∃ w, K w ∧ (m w).2 = Return a) → tame K R P (f a)) →
  tame K R P (m ≫= f).
Proof.
  intros Hm Hf w Hw. rewrite run_bind. specialize (Hm w Hw).
  destruct (m w) as [w' [a|e]] eqn:E; cbn [fst] in *; [|done].
  eapply evolves_trans; [exact Hm|]. apply Hf.
  - exists w. by rewrite E.
  - by eapply K_closed.
Qed.

Lemma tame_bind {A B} (m : M A) (f : A → M B) :
  tame K R P m → (∀ a, tame K R P (f a)) → tame K R P (m ≫= f).
Proof. intros Hm Hf. apply tame_bind_result; [done|]. intros a _. apply Hf. Qed.

Lemma tame_try_except {A} (body : M A) handler :
  tame K R P body → (∀ e, tame K R P (handler e)) →
  tame K R P (try_except body handler).
Proof.
  intros Hm Hf w Hw. unfold try_except. specialize (Hm w Hw).
  destruct (body w) as [w' [a|e]]; cbn [fst] in *; [done|].
  destruct (is_Exception e); [|done].
  eapply evolves_trans; [exact Hm|]. apply Hf. by eapply K_closed.
Qed.

Lemma tame_try_finally {A} (body : M A) cleanup :
  tame K R P body → tame K R P cleanup →
  tame K R P (try_finally body cleanup).
Proof.
  intros Hm Hc w Hw. unfold try_finally. specialize (Hm w Hw).
  destruct (body w) as [w' r]; cbn [fst] in *.
  assert (evolves R P w (cleanup w').1) as H.
  { eapply evolves_trans; [exact Hm|]. apply Hc. by eapply K_closed. }
  by destruct (cleanup w') as [w'' [[]|e]].
Qed.

Lemma tame_emit e : P e → tame K R P (emit e).
Proof. intros He w _. by apply evolves_emit. Qed.

Lemma tame_print msg : tame K R P (print msg).
Proof. by apply tame_emit. Qed.

Lemma tame_world : tame K R P world.
Proof. intros w _. apply evolves_refl. Qed.

Lemma tame_connect : tame K R P connect.
Proof. intros w _. unfold connect. destruct (database w); apply evolves_refl. Qed.

Lemma tame_setup_session : tame K R P setup_session.
Proof.
  intros w _. unfold setup_session. destruct (session_fails w).
  - apply evolves_refl.
  - by apply evolves_emit.
Qed.

Lemma tame_clear_session : tame K R P clear_session.
Proof. by apply tame_emit. Qed.

Lemma tame_load : tame K R P load_product_type_mappings.
Proof.
  intros w _. rewrite load_product_type_mappings_spec_aux.
  destruct (database w); by apply evolves_emit.
Qed.

Lemma scan_events_allowed evs : Forall scan_event evs → Forall P evs.
Proof.
  intros H. eapply Forall_impl; [exact H|].
  intros [msg|?| | |ok|? ?]; cbn; done.
Qed.

Lemma tame_get_products mappings :
  tame K R P (get_products_for_type_tagging mappings).
Proof.
  intros w _. destruct (decide (mappings = ∅)) as [->|Hne].
  - unfold get_products_for_type_tagging.
    destruct (decide (∅ = ∅)); [|done]. apply evolves_refl.
  - destruct (get_products_spec mappings w Hne) as (evs & -> & Hevs).
    exists (Printed Searching :: evs). split_and!; [done|done|].
    constructor; [done|]. by apply scan_events_allowed.
Qed.

Lemma tame_display worklist : tame K R P (display_products worklist).
Proof.
  unfold display_products. destruct worklist; [apply tame_print|].
  apply tame_bind; [apply tame_world|]. intros w.
  destruct (display w).
  - apply tame_bind; [apply tame_print|]. intros _.
    apply tame_bind; [apply tame_print|]. intros _. apply tame_print.
  - apply tame_raise.
  - apply tame_bind; [apply tame_print|]. intros _. apply tame_raise.
Qed.

(** *** Computations that write to the shop *)
Section saving.
Hypothesis P_save : ∀ p r, P (SaveAttempt p r).

Lemma tame_save p : tame K R P (save p).
Proof.
  unfold save. apply tame_bind; [apply tame_world|]. intros w.
  apply tame_bind; [by apply tame_emit|]. intros _.
  destruct (save_result _ _ _); apply tame_ret || apply tame_raise.
Qed.

Lemma tame_apply_updates verbose worklist : ∀ k,
  tame K R P (apply_updates verbose worklist k).
Proof.
  induction worklist as [|item rest IH]; intros k; cbn [apply_updates].
  - apply tame_ret.
  - apply tame_bind; [|done]. apply tame_try_except.
    + apply tame_bind; [apply tame_save|]. intros _.
      apply tame_bind; [|intros _; apply tame_ret].
      destruct verbose; [apply tame_print|apply tame_ret].
    + intros _. apply tame_bind; [apply tame_print|]. intros _.
      apply tame_ret.
Qed.

Lemma tame_update_products verbose worklist :
  tame K R P (update_products verbose worklist).
Proof.
  unfold update_products. apply tame_bind; [apply tame_apply_updates|].
  intros n. apply tame_bind; apply tame_print || (intros _; apply tame_print).
Qed.

Lemma tame_auto_manage : tame K R P auto_manage_tags_without_confirmation.
Proof.
  apply tame_try_finally; [|apply tame_clear_session].
  apply tame_try_except; [|intros _; apply tame_print].
  apply tame_bind; [apply tame_print|]. intros _.
  apply tame_bind; [apply tame_setup_session|]. intros _.
  apply tame_bind; [apply tame_load|]. intros mappings.
  destruct (decide _); [apply tame_print|].
  apply tame_bind; [apply tame_get_products|]. intros [|item worklist].
  { apply tame_print. }
  apply tame_bind; [apply tame_print|]. intros _.
  apply tame_update_products.
Qed.

End saving.

(** *** Computations that read the keyboard *)
Section asking.
Hypothesis R_suffix : ∀ k k', k' `suffix_of` k → R k' k.
Hypothesis P_asked : ∀ p, P (Asked p).

Lemma get_user_confirmation_loop_evolves message keys : ∀ t,
  ∃ evs, (get_user_confirmation_loop message keys t).1
         = ((get_user_confirmation_loop message keys t).1.1, t ++ evs) ∧
         (get_user_confirmation_loop message keys t).1.1 `suffix_of` keys ∧
         Forall P evs.
Proof.
  induction keys as [|[s|] keys IH]; intros t; cbn [get_user_confirmation_loop].
  - exists [Asked message]. split_and!; [done|done|by constructor].
  - destruct (decide _).
    + exists [Asked message].
      split_and!; [done|by apply suffix_cons_r|by constructor].
    + destruct (IH (t ++ [Asked message; Printed InvalidAnswer]))
        as (evs & E & Hs & HP).
      exists ([Asked message; Printed InvalidAnswer] ++ evs).
      split_and!.
      * rewrite E at 1. cbn [fst snd]. by rewrite <-app_assoc.
      * by apply suffix_cons_r.
      * apply Forall_app. split; [|done]. by repeat constructor.
  - exists [Asked message].
    split_and!; [done|by apply suffix_cons_r|by constructor].
Qed.

Lemma tame_get_user_confirmation message :
  tame K R P (get_user_confirmation message).
Proof.
  intros w _. unfold get_user_confirmation.
  destruct (get_user_confirmation_loop_evolves message (keyboard w) (trace w))
    as (evs & E & Hs & HP).
  destruct (get_user_confirmation_loop _ _ _) as [[ks t] r].
  cbn [fst snd] in *. injection E as ->.
  exists evs. split_and!; [done|by apply R_suffix|done].
Qed.

(** The interactive workflow, when writing is allowed. *)
Lemma tame_manage :
  (∀ p r, P (SaveAttempt p r)) → tame K R P manage_product_type_tags.
Proof.
  intros P_save.
  apply tame_try_finally; [|apply tame_clear_session].
  apply tame_try_except; [|intros _; apply tame_print].
  apply tame_bind; [apply tame_print|]. intros _.
  apply tame_bind; [apply tame_setup_session|]. intros _.
  apply tame_bind; [apply tame_load|]. intros mappings.
  destruct (decide _); [apply tame_print|].
  apply tame_bind; [apply tame_get_products|]. intros [|item worklist].
  { apply tame_print. }
  apply tame_bind; [apply tame_display|]. intros _.
  apply tame_bind; [apply tame_get_user_confirmation|]. intros [|]; cbn [negb].
  - by apply tame_update_products.
  - apply tame_print.
Qed.

(** The interactive workflow, when no confirmation can be a yes: the
    update loop is out of reach. *)
Lemma tame_manage_unconfirmed :
  (∀ message w, K w → (get_user_confirmation message w).2 ≠ Return true) →
  tame K R P manage_product_type_tags.
Proof.
  intros Hno.
  apply tame_try_finally; [|apply tame_clear_session].
  apply tame_try_except; [|intros _; apply tame_print].
  apply tame_bind; [apply tame_print|]. intros _.
  apply tame_bind; [apply tame_setup_session|]. intros _.
  apply tame_bind; [apply tame_load|]. intros mappings.
  destruct (decide _); [apply tame_print|].
  apply tame_bind; [apply tame_get_products|]. intros [|item worklist].
  { apply tame_print. }
  apply tame_bind; [apply tame_display|]. intros _.
  apply tame_bind_result; [apply tame_get_user_confirmation|].
  intros [|] (w & Hw & Hret); cbn [negb].
  - by apply Hno in Hret.
  - apply tame_print.
Qed.

End asking.

(** Both workflows, when the scan cannot give a worklist: nothing after it
    is reached. *)
Lemma tame_workflows_without_worklist :
  (∀ mappings w worklist,
     K w → (get_products_for_type_tagging mappings w).2 = Return worklist →
     worklist = []) →
  tame K R P manage_product_type_tags ∧
  tame K R P auto_manage_tags_without_confirmation.
Proof.
  intros Hnone. split.
  - apply tame_try_finally; [|apply tame_clear_session].
    apply tame_try_except; [|intros _; apply tame_print].
    apply tame_bind; [apply tame_print|]. intros _.
    apply tame_bind; [apply tame_setup_session|]. intros _.
    apply tame_bind; [apply tame_load|]. intros mappings.
    destruct (decide _); [apply tame_print|].
    apply tame_bind_result; [apply tame_get_products|].
    intros worklist (w & Hw & Hret).
    rewrite (Hnone mappings w worklist Hw Hret). apply tame_print.
  - apply tame_try_finally; [|apply tame_clear_session].
    apply tame_try_except; [|intros _; apply tame_print].
    apply tame_bind; [apply tame_print|]. intros _.
    apply tame_bind; [apply tame_setup_session|]. intros _.
    apply tame_bind; [apply tame_load|]. intros mappings.
    destruct (decide _); [apply tame_print|].
    apply tame_bind_result; [apply tame_get_products|].
    intros worklist (w & Hw & Hret).
    rewrite (Hnone mappings w worklist Hw Hret). apply tame_print.
Qed.

End taming.

(** ** What the computations may raise *)
Section raising.
Import Run Admin.

(** The exceptions that [except Exception] catches. *)
Local Abbreviation caught := (λ e : Exn, is_Exception e = true).

Lemma raises_weaken {A} (E E' : Exn → Prop) (m : M A) :
  raises_only E m → (∀ e, E e → E' e) → raises_only E' m.
Proof. intros Hm HE w e Hr. by apply HE, (Hm w). Qed.

Lemma raises_ret {A} E (a : A) : raises_only E (mret a).
Proof. by intros w e. Qed.

Lemma raises_raise {A} (E : Exn → Prop) e : E e → raises_only E (@raise A e).
Proof. by intros He w e' [= <-]. Qed.

Lemma raises_bind {A B} E (m : M A) (f : A → M B) :
  raises_only E m → (∀ a, raises_only E (f a)) → raises_only E (m ≫= f).
Proof.
  intros Hm Hf w e. rewrite run_bind. specialize (Hm w).
  destruct (m w) as [w' [a|e']]; cbn [snd] in *.
  - apply Hf.
  - intros [= <-]. by apply Hm.
Qed.

Lemma raises_try_except {A} E1 E2 (body : M A) handler :
  raises_only E1 body → (∀ e, raises_only E2 (handler e)) →
  (∀ e, E1 e → is_Exception e = false → E2 e) →
  raises_only E2 (try_except body handler).
Proof.
  intros Hm Hh HE w e. unfold try_except. specialize (Hm w).
  destruct (body w) as [w' [a|e']]; cbn [snd] in *; [done|].
  destruct (is_Exception e') eqn:Ee.
  - apply Hh.
  - intros [= <-]. by apply HE; [apply Hm|].
Qed.

Lemma raises_try_finally {A} E (body : M A) cleanup :
  raises_only E body → raises_only E cleanup →
  raises_only E (try_finally body cleanup).
Proof.
  intros Hm Hc w e. unfold try_finally. specialize (Hm w).
  destruct (body w) as [w' r]. specialize (Hc w').
  destruct (cleanup w') as [w'' [[]|e']]; cbn [snd] in *.
  - apply Hm.
  - intros [= <-]. by apply Hc.
Qed.

Lemma raises_emit E ev : raises_only E (emit ev).
Proof. by intros w e. Qed.

Lemma raises_print E msg : raises_only E (print msg).
Proof. by intros w e. Qed.

Lemma raises_setup_session : raises_only caught setup_session.
Proof.
  intros w e. unfold setup_session.
  destruct (session_fails w); [by intros [= <-]|done].
Qed.

Lemma raises_load E : raises_only E load_product_type_mappings.
Proof.
  intros w e. rewrite load_product_type_mappings_spec_aux.
  by destruct (database w).
Qed.

Lemma raises_get_products mappings :
  raises_only caught (get_products_for_type_tagging mappings).
Proof.
  intros w e. destruct (decide (mappings = ∅)) as [->|Hne].
  - unfold get_products_for_type_tagging. by destruct (decide (∅ = ∅)).
  - destruct (get_products_spec mappings w Hne) as (evs & -> & _).
    cbn [snd]. destruct (fetch_ok _); [done|]. by intros [= <-].
Qed.

Lemma raises_update_products verbose worklist :
  raises_only (λ e, e = KeyboardInterrupt) (update_products verbose worklist).
Proof.
  intros w e. unfold update_products. rewrite run_bind.
  destruct (apply_updates_spec verbose worklist 0 w)
    as (evs & _ & _ & [(-> & _)|(-> & _)]).
  - done.
  - by intros [= <-].
Qed.

(** The unattended workflow raises nothing that [except Exception]
    catches. *)
Lemma raises_auto_manage :
  raises_only (λ e, e = KeyboardInterrupt)
              auto_manage_tags_without_confirmation.
Proof.
  apply raises_try_finally; [|apply raises_emit].
  apply (raises_try_except (λ _, True));
    [by intros w e|intros _; apply raises_print|by intros []].
Qed.

(** The interactive workflow raises nothing that [except Exception]
    catches. *)
Lemma raises_manage :
  raises_only (λ e, e = KeyboardInterrupt) manage_product_type_tags.
Proof.
  apply raises_try_finally; [|apply raises_emit].
  apply (raises_try_except (λ _, True));
    [by intros w e|intros _; apply raises_print|by intros []].
Qed.

End raising.

(** ** The scan and the workflows, end to end *)
Section end_to_end.
Import Run Admin.

Lemma run_bind_ret {A B} (m : M A) (f : A → M B) w w' a :
  m w = (w', Return a) → (m ≫= f) w = f a w'.
Proof. intros E. by rewrite run_bind, E. Qed.

Lemma run_bind_raise {A B} (m : M A) (f : A → M B) w w' e :
  m w = (w', Raise e) → (m ≫= f) w = (w', Raise e).
Proof. intros E. by rewrite run_bind, E. Qed.

Lemma scan_product_empty p : scan_product ∅ p = None.
Proof. unfold scan_product. by rewrite lookup_empty. Qed.

Lemma omap_scan_product_empty ps : omap (scan_product ∅) ps = [].
Proof.
  induction ps as [|p ps IH]; [done|]. cbn. by rewrite scan_product_empty.
Qed.

(** X18. When every fetch works, the scan returns the entries of the
    products of the pages it went through, in the order of the catalog, one
    per product that misses a tag of its type; it stops at the first empty
    page even when a next page is announced. *)
Theorem scan_returns_entries_in_order
    (mappings : gmap string (list string)) w :
  fetch_ok (catalog w) = true →
  (get_products_for_type_tagging mappings w).2
  = Return (omap (scan_product mappings) (visited (catalog w))).
Proof.
  intros Hok. destruct (decide (mappings = ∅)) as [->|Hne].
  - unfold get_products_for_type_tagging.
    destruct (decide (∅ = ∅)); [|done]. cbn. f_equal.
    induction (visited (catalog w)) as [|p ps IH]; [done|].
    cbn. by rewrite scan_product_empty.
  - destruct (get_products_spec mappings w Hne) as (evs & -> & _).
    by rewrite Hok.
Qed.

Lemma scan_returns_entries_in_order_witness :
  let pA := mkProduct 1 "A" "Shoes" (Some "old, sale") in
  let pB := mkProduct 2 "B" "Hat" (Some "x") in
  let pC := mkProduct 3 "C" "Shoes" None in
  let w := mkWorld None 0 [] false
                   (MorePage [pA; pB] (MorePage [] (LastPage [pC])))
                   (λ _ _, Saved) Shown [] in
  (get_products_for_type_tagging {["Shoes" := ["sale"; "new"]]} w).2
  = Return (omap (scan_product {["Shoes" := ["sale"; "new"]]}) [pA; pB]).
Proof.
  exact (scan_returns_entries_in_order {["Shoes" := ["sale"; "new"]]}
           (mkWorld None 0 [] false
              (MorePage [mkProduct 1 "A" "Shoes" (Some "old, sale");
                         mkProduct 2 "B" "Hat" (Some "x")]
                 (MorePage [] (LastPage [mkProduct 3 "C" "Shoes" None])))
              (λ _ _, Saved) Shown [])
           eq_refl).
Defined.

Lemma fetch_results_app evs1 evs2 :
  fetch_results (evs1 ++ evs2) = fetch_results evs1 ++ fetch_results evs2.
Proof. apply omap_app. Qed.

Lemma fetch_results_fetched ok evs :
  fetch_results (PageFetched ok :: evs) = ok :: fetch_results evs.
Proof. reflexivity. Qed.

Lemma fetch_results_scan_progress n w evs :
  report_progress n w = (set_trace (trace w ++ evs) w, Return ()) →
  fetch_results evs = [].
Proof.
  unfold report_progress. destruct (decide _).
  - rewrite run_print. intros [= E].
    by apply app_inv_head in E as <-.
  - intros [= E%(f_equal trace)]. cbn in E.
    rewrite <-(app_nil_r (trace w)) in E at 1.
    by apply app_inv_head in E as <-.
Qed.

Ltac crunch :=
  cbv [mbind M_bind bind mret M_ret ret emit print raise is_Exception world
       negb connect write_database try_except set_trace set_keyboard
       set_database fst snd
       trace database clock keyboard session_fails catalog save_result
       display];
  rewrite <-?app_assoc.

Lemma scan_pages_counts mappings page : ∀ worklist n w,
  ∃ evs,
    (scan_pages mappings page worklist n w).1 = set_trace (trace w ++ evs) w ∧
    length (fetch_results evs) = fetches page ∧
    (fetch_ok page = true →
     last evs = Some (Printed (TotalChecked (n + length (visited page))))).
Proof.
  induction page as [|items|items next IH]; intros worklist n w.
  - exists [PageFetched false]. by split_and!.
  - destruct items as [|p items].
    + exists [PageFetched true; Printed (TotalChecked n)].
      cbn [scan_pages visited length]. rewrite Nat.add_0_r.
      split_and!; [by crunch|done|done].
    + cbn [scan_pages fetch_ok visited fetches]. rewrite foldl_scan_step.
      rewrite run_bind. cbn [emit].
      edestruct (report_progress_spec (n + length (p :: items)))
        as (evs & E & _).
      rewrite run_bind, E.
      apply fetch_results_scan_progress in E as Hnone.
      exists (PageFetched true :: evs ++
              [Printed (TotalChecked (n + length (p :: items)))]).
      split_and!.
      * by crunch.
      * by rewrite fetch_results_fetched, fetch_results_app, Hnone.
      * intros _. by rewrite last_cons, last_snoc.
  - destruct items as [|p items].
    + exists [PageFetched true; Printed (TotalChecked n)].
      cbn [scan_pages visited length]. rewrite Nat.add_0_r.
      split_and!; [by crunch|done|done].
    + cbn [scan_pages fetch_ok visited fetches]. rewrite foldl_scan_step.
      rewrite run_bind. cbn [emit].
      edestruct (report_progress_spec (n + length (p :: items)))
        as (evs & E & _).
      rewrite run_bind, E.
      apply fetch_results_scan_progress in E as Hnone.
      edestruct IH as (evs' & -> & Hlen & Hlast).
      exists (PageFetched true :: evs ++ evs').
      split_and!.
      * by crunch.
      * rewrite fetch_results_fetched, fetch_results_app, Hnone.
        cbn. by rewrite Hlen.
      * intros Hok. specialize (Hlast Hok).
        rewrite length_app, Nat.add_assoc.
        rewrite last_cons, last_app, Hlast. done.
Qed.

(** X19. With a mapping that is not empty, the scan fetches one page after
    the other up to the first empty page or failed fetch and no further,
    and when the fetches work the last thing it prints is the number of
    products it went through. *)
Theorem scan_fetches_and_counts (mappings : gmap string (list string)) w :
  mappings ≠ ∅ →
  ∃ evs,
    (get_products_for_type_tagging mappings w).1
    = set_trace (trace w ++ evs) w ∧
    length (fetch_results evs) = fetches (catalog w) ∧
    (fetch_ok (catalog w) = true →
     last evs = Some (Printed (TotalChecked (length (visited (catalog w)))))).
Proof.
  intros Hne. unfold get_products_for_type_tagging.
  destruct (decide (mappings = ∅)); [done|].
  rewrite run_bind, run_print, run_bind. cbn [world].
  destruct (scan_pages_counts mappings (catalog w) [] 0
              (set_trace (trace w ++ [Printed Searching]) w))
    as (evs & E & Hlen & Hlast).
  cbn [catalog set_trace] in *. rewrite E.
  exists (Printed Searching :: evs). split_and!.
  - cbn. by rewrite <-app_assoc.
  - done.
  - intros Hok. rewrite last_cons, (Hlast Hok). done.
Qed.

Lemma scan_fetches_and_counts_witness :
  let w := mkWorld None 0 [] false
                   (MorePage [mkProduct 1 "A" "Shoes" None]
                      (MorePage [] (LastPage [mkProduct 3 "C" "Shoes" None])))
                   (λ _ _, Saved) Shown [] in
  ∃ evs,
    (get_products_for_type_tagging {["Shoes" := ["sale"]]} w).1
    = set_trace (trace w ++ evs) w ∧
    length (fetch_results evs) = 2 ∧
    (true = true → last evs = Some (Printed (TotalChecked 1))).
Proof.
  refine (scan_fetches_and_counts {["Shoes" := ["sale"]]}
           (mkWorld None 0 [] false
              (MorePage [mkProduct 1 "A" "Shoes" None]
                 (MorePage [] (LastPage [mkProduct 3 "C" "Shoes" None])))
              (λ _ _, Saved) Shown []) _).
  intros E. by apply (f_equal (.!! "Shoes")) in E.
Defined.

End end_to_end.

(** ** The workflows as a whole *)
Section workflows.
Import Run Admin.

Lemma not_asked_facts :
  (∀ msg, ¬ is_asked (Printed msg)) ∧ (∀ ok, ¬ is_asked (PageFetched ok)) ∧
  ¬ is_asked SessionActivated ∧ ¬ is_asked SessionCleared ∧
  (∀ p r, ¬ is_asked (SaveAttempt p r)).
Proof. split_and!; intros; intros H; exact H. Qed.

Lemma not_save_facts :
  (∀ msg, ¬ is_save (Printed msg)) ∧ (∀ ok, ¬ is_save (PageFetched ok)) ∧
  ¬ is_save SessionActivated ∧ ¬ is_save SessionCleared ∧
  (∀ p, ¬ is_save (Asked p)).
Proof. split_and!; intros; intros H; exact H. Qed.

(** X20. The unattended workflow never asks anything, and it changes
    nothing of the world but the trace: not the store, not the keyboard. No
    exception that [except Exception] catches leaves it, so a failure
    inside (of the session, the store, a fetch or a write) does not stop
    the schedule: it returns normally, unless it is interrupted from the
    keyboard, which line 403 lets through. *)
Theorem auto_manage_never_asks w :
  ∃ evs,
    (auto_manage_tags_without_confirmation w).1
    = set_trace (trace w ++ evs) w ∧
    Forall (λ e, ¬ is_asked e) evs ∧
    ((auto_manage_tags_without_confirmation w).2 = Return () ∨
     (auto_manage_tags_without_confirmation w).2 = Raise KeyboardInterrupt).
Proof.
  destruct not_asked_facts as (H1 & H2 & H3 & H4 & H5).
  assert (tame (λ _, True) eq (λ e, ¬ is_asked e)
               auto_manage_tags_without_confirmation) as Htame
    by (apply tame_auto_manage; try done; apply _).
  destruct (Htame w I) as (evs & E & Hkb & Hevs).
  exists evs. split_and!; [by rewrite E, Hkb|done|].
  pose proof (raises_auto_manage w) as Hraise.
  destruct (auto_manage_tags_without_confirmation w).2 as [[]|e];
    [by left|right].
  by rewrite (Hraise e).
Qed.

(** X21. The interactive workflow returns normally or is interrupted from
    the keyboard, and no other exception leaves it; it reads the keyboard
    from the front and appends to the trace, and changes nothing else: the
    mapping store is never written by a run. *)
Theorem manage_only_reads_and_reports w :
  ∃ evs ks,
    (manage_product_type_tags w).1
    = set_trace (trace w ++ evs) (set_keyboard ks w) ∧
    ks `suffix_of` keyboard w ∧
    ((manage_product_type_tags w).2 = Return () ∨
     (manage_product_type_tags w).2 = Raise KeyboardInterrupt).
Proof.
  assert (tame (λ _, True) suffix (λ _, True) manage_product_type_tags)
    as Htame by (apply tame_manage; try done; apply _).
  destruct (Htame w I) as (evs & E & Hkb & Hevs).
  exists evs, (keyboard (manage_product_type_tags w).1).
  split_and!; [done|done|].
  pose proof (raises_manage w) as Hraise.
  destruct (manage_product_type_tags w).2 as [[]|e]; [by left|right].
  by rewrite (Hraise e).
Qed.

Lemma get_user_confirmation_loop_yes message keys : ∀ t,
  (get_user_confirmation_loop message keys t).2 = Return true →
  Exists says_yes keys.
Proof.
  induction keys as [|[s|] keys IH]; intros t; cbn [get_user_confirmation_loop];
    [done| |done].
  destruct (decide _).
  - cbn [snd]. intros [= Hyes%bool_decide_eq_true_1]. by left.
  - intros H. right. by eapply IH.
Qed.

Lemma get_user_confirmation_yes message w :
  (get_user_confirmation message w).2 = Return true →
  Exists says_yes (keyboard w).
Proof.
  unfold get_user_confirmation.
  pose proof (get_user_confirmation_loop_yes message (keyboard w) (trace w)).
  by destruct (get_user_confirmation_loop _ _ _) as [[ks t] r].
Qed.

(** X22. Without an answer that means yes, the interactive workflow writes
    nothing to the shop: whatever the catalog and the mapping hold, no save
    is attempted unless some line of the input, trimmed and lower-cased, is
    [s]. *)
Theorem manage_saves_nothing_without_yes w :
  Forall (λ k, ¬ says_yes k) (keyboard w) →
  ∃ evs,
    trace (manage_product_type_tags w).1 = trace w ++ evs ∧
    Forall (λ e, ¬ is_save e) evs.
Proof.
  intros Hno.
  destruct not_save_facts as (H1 & H2 & H3 & H4 & H5).
  assert (tame (λ w, Forall (λ k, ¬ says_yes k) (keyboard w)) suffix
               (λ e, ¬ is_save e) manage_product_type_tags) as Htame.
  { apply tame_manage_unconfirmed; try done; try apply _.
    - intros w1 w2 Hw1 (evs & _ & [pre Hkb] & _).
      rewrite Hkb in Hw1. by apply Forall_app in Hw1 as [_ ?].
    - intros message w' Hw' Hyes%get_user_confirmation_yes.
      apply Exists_exists in Hyes as (k & Hin & Hk).
      by apply (proj1 (Forall_forall _ _) Hw') in Hin. }
  destruct (Htame w Hno) as (evs & E & _ & Hevs).
  exists evs. split; [|done]. by rewrite E.
Qed.

Lemma manage_saves_nothing_without_yes_witness :
  let w := mkWorld (Some (mkStore {["Shoes" := mkRow 1 "sale" 0 0]} 2)) 7
                   [Line "x"; Line "N"] false
                   (LastPage [mkProduct 1 "A" "Shoes" None])
                   (λ _ _, Saved) Shown [] in
  ∃ evs,
    trace (manage_product_type_tags w).1 = trace w ++ evs ∧
    Forall (λ e, ¬ is_save e) evs.
Proof.
  refine (manage_saves_nothing_without_yes
            (mkWorld (Some (mkStore {["Shoes" := mkRow 1 "sale" 0 0]} 2)) 7
                     [Line "x"; Line "N"] false
                     (LastPage [mkProduct 1 "A" "Shoes" None])
                     (λ _ _, Saved) Shown []) _).
  repeat constructor; cbn; discriminate.
Defined.

(** X23. When a fetch of the scan fails, neither workflow writes anything
    to the shop: the entries collected from the pages before the failure
    are dropped with it. *)
Theorem failed_fetch_means_no_save w :
  fetch_ok (catalog w) = false →
  (∃ evs, trace (manage_product_type_tags w).1 = trace w ++ evs ∧
          Forall (λ e, ¬ is_save e) evs) ∧
  (∃ evs, trace (auto_manage_tags_without_confirmation w).1 = trace w ++ evs ∧
          Forall (λ e, ¬ is_save e) evs).
Proof.
  intros Hfail.
  destruct not_save_facts as (H1 & H2 & H3 & H4 & H5).
  destruct (tame_workflows_without_worklist
              (λ w, fetch_ok (catalog w) = false) suffix (λ e, ¬ is_save e))
    as [Hm Ha]; try done; try apply _.
  - intros w1 w2 Hw1 (evs & E & _ & _). rewrite E. by cbn.
  - intros mappings w' worklist Hw'.
    destruct (decide (mappings = ∅)) as [->|Hne].
    + unfold get_products_for_type_tagging.
      destruct (decide (∅ = ∅)); [|done]. by intros [= <-].
    + destruct (get_products_spec mappings w' Hne) as (evs & -> & _).
      by rewrite Hw'.
  - split.
    + destruct (Hm w Hfail) as (evs & E & _ & Hevs).
      exists evs. split; [|done]. by rewrite E.
    + destruct (Ha w Hfail) as (evs & E & _ & Hevs).
      exists evs. split; [|done]. by rewrite E.
Qed.

Lemma failed_fetch_means_no_save_witness :
  let w := mkWorld (Some (mkStore {["Shoes" := mkRow 1 "sale" 0 0]} 2)) 7
                   [Line "s"] false
                   (MorePage [mkProduct 1 "A" "Shoes" None] FetchFail)
                   (λ _ _, Saved) Shown [] in
  (∃ evs, trace (manage_product_type_tags w).1 = trace w ++ evs ∧
          Forall (λ e, ¬ is_save e) evs) ∧
  (∃ evs, trace (auto_manage_tags_without_confirmation w).1 = trace w ++ evs ∧
          Forall (λ e, ¬ is_save e) evs).
Proof.
  exact (failed_fetch_means_no_save
           (mkWorld (Some (mkStore {["Shoes" := mkRow 1 "sale" 0 0]} 2)) 7
                    [Line "s"] false
                    (MorePage [mkProduct 1 "A" "Shoes" None] FetchFail)
                    (λ _ _, Saved) Shown [])
           eq_refl).
Defined.

(** X24. When the session cannot be opened, each workflow reports a
    general error and stops: the mapping is not loaded, nothing is fetched
    or written, and the session is cleared all the same. *)
Theorem session_failure_stops_the_run w :
  session_fails w = true →
  manage_product_type_tags w
  = (set_trace (trace w ++ [Printed Starting; Printed GeneralError;
                            SessionCleared]) w,
     Return ()) ∧
  auto_manage_tags_without_confirmation w
  = (set_trace (trace w ++ [Printed AutoStarting; Printed AutoError;
                            SessionCleared]) w,
     Return ()).
Proof.
  intros Hsf.
  unfold manage_product_type_tags, auto_manage_tags_without_confirmation.
  unfold try_finally, try_except, setup_session, clear_session.
  rewrite !run_bind, !run_print, !run_bind.
  cbn [set_trace session_fails]. rewrite Hsf. cbn [is_Exception].
  rewrite !run_print. unfold emit. cbn [set_trace trace].
  by rewrite <-!app_assoc.
Qed.

Lemma session_failure_stops_the_run_witness :
  let w := mkWorld None 0 [] true (LastPage []) (λ _ _, Saved) Shown [] in
  manage_product_type_tags w
  = (set_trace [Printed Starting; Printed GeneralError; SessionCleared] w,
     Return ()) ∧
  auto_manage_tags_without_confirmation w
  = (set_trace [Printed AutoStarting; Printed AutoError; SessionCleared] w,
     Return ()).
Proof.
  exact (session_failure_stops_the_run
           (mkWorld None 0 [] true (LastPage []) (λ _ _, Saved) Shown []) eq_refl).
Defined.

End workflows.

(** ** A complete unattended run *)
Section unattended_run.
Import Run Admin.

Lemma setup_session_ok w :
  session_fails w = false →
  setup_session w = (set_trace (trace w ++ [SessionActivated]) w, Return ()).
Proof. intros Hsf. unfold setup_session. by rewrite Hsf. Qed.

(** X25. With a readable store, a session that opens, fetches that work
    and no write interrupted from the keyboard, an unattended run whose scan
    finds something does this and nothing else: it loads the mapping, scans,
    attempts one write per worklist entry in the order of the catalog, each
    with the merged tags, reports how many calls of [save] came back,
    whatever they returned, out of how many entries, clears the session and
    returns. *)
Theorem auto_manage_complete_run w st :
  database w = Some st → session_fails w = false →
  fetch_ok (catalog w) = true →
  (∀ t p, save_result w t p ≠ Interrupted) →
  let mappings := (parse_stored_tags ∘ row_tags) <$> table st in
  let worklist := omap (scan_product mappings) (visited (catalog w)) in
  worklist ≠ [] →
  ∃ scan_evs save_evs,
    auto_manage_tags_without_confirmation w
    = (set_trace
         (trace w ++
          [Printed AutoStarting; SessionActivated;
           Printed (MappingsLoaded (size (table st))); Printed Searching] ++
          scan_evs ++ [Printed (Found (length worklist))] ++ save_evs ++
          [Printed AutoFinished;
           Printed (Updated (returned save_evs) (length worklist));
           SessionCleared]) w,
       Return ()) ∧
    Forall scan_event scan_evs ∧
    (save_attempts save_evs).*1 = with_merged_tags <$> worklist ∧
    (∀ p, (p, Failed) ∈ save_attempts save_evs →
          Printed (UpdateFailed (title p)) ∈ save_evs).
Proof.
  intros Hdb Hsf Hok Hshop mappings worklist Hwork.
  assert (mappings ≠ ∅) as Hne.
  { intros E. apply Hwork. unfold worklist. rewrite E.
    apply omap_scan_product_empty. }
  set (w1 := set_trace (trace w ++ [Printed AutoStarting]) w).
  set (w2 := set_trace (trace w1 ++ [SessionActivated]) w1).
  set (w3 := set_trace (trace w2 ++
               [Printed (MappingsLoaded (size (table st)))]) w2).
  destruct (get_products_spec mappings w3 Hne) as (scan_evs & Escan & Hscan).
  change (catalog w3) with (catalog w) in Escan. rewrite Hok in Escan.
  fold worklist in Escan.
  set (w4 := set_trace (trace w3 ++ Printed Searching :: scan_evs) w3) in *.
  set (w5 := set_trace (trace w4 ++ [Printed (Found (length worklist))]) w4).
  destruct (update_products_spec false worklist w5 Hshop)
    as (save_evs & Eupd & Hsave & Hfail).
  exists scan_evs, save_evs. split_and!; [|done|done|done].
  unfold auto_manage_tags_without_confirmation, try_finally, try_except.
  rewrite (run_bind_ret _ _ w w1 ()) by apply run_print.
  rewrite (run_bind_ret _ _ w1 w2 ()) by by apply setup_session_ok.
  rewrite (run_bind_ret _ _ w2 w3 mappings) by by apply load_ok.
  destruct (decide (mappings = ∅)); [done|].
  rewrite (run_bind_ret _ _ w3 w4 worklist) by exact Escan.
  destruct worklist as [|item rest] eqn:Ew; [done|].
  rewrite (run_bind_ret _ _ w4 w5 ()) by apply run_print.
  rewrite Eupd. unfold clear_session, emit.
  destruct w as [db clk kb sf cat ok df tr]. cbn. by rewrite <-!app_assoc.
Qed.

(** One product that misses a tag, in a shop that refuses the write by
    returning [False]: the run reports 1 of 1. *)
Lemma auto_manage_complete_run_witness :
  let st := mkStore {["Shoes" := mkRow 1 "sale; new" 0 0]} 2 in
  let pA := mkProduct 1 "A" "Shoes" (Some "old, sale") in
  let w := mkWorld (Some st) 7 [] false (LastPage [pA]) (λ _ _, Rejected)
                   Shown [] in
  let mappings := (parse_stored_tags ∘ row_tags) <$> table st in
  let worklist := omap (scan_product mappings) (visited (catalog w)) in
  ∃ scan_evs save_evs,
    auto_manage_tags_without_confirmation w
    = (set_trace
         (trace w ++
          [Printed AutoStarting; SessionActivated;
           Printed (MappingsLoaded (size (table st))); Printed Searching] ++
          scan_evs ++ [Printed (Found (length worklist))] ++ save_evs ++
          [Printed AutoFinished;
           Printed (Updated (returned save_evs) (length worklist));
           SessionCleared]) w,
       Return ()) ∧
    Forall scan_event scan_evs ∧
    (save_attempts save_evs).*1 = with_merged_tags <$> worklist ∧
    (∀ p, (p, Failed) ∈ save_attempts save_evs →
          Printed (UpdateFailed (title p)) ∈ save_evs).
Proof.
  refine (auto_manage_complete_run
            (mkWorld (Some (mkStore {["Shoes" := mkRow 1 "sale; new" 0 0]} 2))
                     7 [] false
                     (LastPage [mkProduct 1 "A" "Shoes" (Some "old, sale")])
                     (λ _ _, Rejected) Shown [])
            (mkStore {["Shoes" := mkRow 1 "sale; new" 0 0]} 2)
            eq_refl eq_refl eq_refl _ _).
  - intros t p. discriminate.
  - vm_compute. discriminate.
Defined.

End unattended_run.

(** ** An interactive run whose table cannot be rendered *)
Section table_failure.
Import Run Admin.

(** X26. When the scan of an interactive run finds something but the
    worklist cannot be shown, the failure is caught as a general error: at
    most the heading of the table is printed, the operator is not asked,
    nothing is written to the shop, the session is cleared and the workflow
    returns. *)
Theorem manage_display_failure w st :
  database w = Some st → session_fails w = false →
  fetch_ok (catalog w) = true → display w ≠ Shown →
  let mappings := (parse_stored_tags ∘ row_tags) <$> table st in
  let worklist := omap (scan_product mappings) (visited (catalog w)) in
  worklist ≠ [] →
  ∃ scan_evs,
    manage_product_type_tags w
    = (set_trace
         (trace w ++
          [Printed Starting; SessionActivated;
           Printed (MappingsLoaded (size (table st))); Printed Searching] ++
          scan_evs ++
          (if decide (display w = TableFails) then [Printed TableHeading]
           else []) ++
          [Printed GeneralError; SessionCleared]) w,
       Return ()) ∧
    Forall scan_event scan_evs.
Proof.
  intros Hdb Hsf Hok Hdf mappings worklist Hwork.
  assert (mappings ≠ ∅) as Hne.
  { intros E. apply Hwork. unfold worklist. rewrite E.
    apply omap_scan_product_empty. }
  set (w1 := set_trace (trace w ++ [Printed Starting]) w).
  set (w2 := set_trace (trace w1 ++ [SessionActivated]) w1).
  set (w3 := set_trace (trace w2 ++
               [Printed (MappingsLoaded (size (table st)))]) w2).
  destruct (get_products_spec mappings w3 Hne) as (scan_evs & Escan & Hscan).
  change (catalog w3) with (catalog w) in Escan. rewrite Hok in Escan.
  fold worklist in Escan.
  set (w4 := set_trace (trace w3 ++ Printed Searching :: scan_evs) w3) in *.
  exists scan_evs. split; [|done].
  unfold manage_product_type_tags, try_finally, try_except.
  rewrite (run_bind_ret _ _ w w1 ()) by apply run_print.
  rewrite (run_bind_ret _ _ w1 w2 ()) by by apply setup_session_ok.
  rewrite (run_bind_ret _ _ w2 w3 mappings) by by apply load_ok.
  destruct (decide (mappings = ∅)); [done|].
  rewrite (run_bind_ret _ _ w3 w4 worklist) by exact Escan.
  destruct worklist as [|item rest] eqn:Ew; [done|].
  unfold display_products. rewrite !run_bind. cbn [world].
  change (display w4) with (display w).
  destruct (display w) eqn:Ed; [done| |].
  - cbn [is_Exception raise]. rewrite run_print. unfold clear_session, emit.
    destruct w as [db clk kb sf cat ok df tr]. cbn. by rewrite <-!app_assoc.
  - rewrite run_bind, run_print. cbn [is_Exception raise].
    rewrite run_print. unfold clear_session, emit.
    destruct w as [db clk kb sf cat ok df tr]. cbn. by rewrite <-!app_assoc.
Qed.

Lemma manage_display_failure_witness :
  let st := mkStore {["Shoes" := mkRow 1 "sale; new" 0 0]} 2 in
  let pA := mkProduct 1 "A" "Shoes" (Some "old, sale") in
  let w := mkWorld (Some st) 7 [Line "s"] false (LastPage [pA])
                   (λ _ _, Saved) TableFails [] in
  ∃ scan_evs,
    manage_product_type_tags w
    = (set_trace
         (trace w ++
          [Printed Starting; SessionActivated;
           Printed (MappingsLoaded (size (table st))); Printed Searching] ++
          scan_evs ++ [Printed TableHeading] ++
          [Printed GeneralError; SessionCleared]) w,
       Return ()) ∧
    Forall scan_event scan_evs.
Proof.
  refine (manage_display_failure
            (mkWorld (Some (mkStore {["Shoes" := mkRow 1 "sale; new" 0 0]} 2))
                     7 [Line "s"] false
                     (LastPage [mkProduct 1 "A" "Shoes" (Some "old, sale")])
                     (λ _ _, Saved) TableFails [])
            (mkStore {["Shoes" := mkRow 1 "sale; new" 0 0]} 2)
            eq_refl eq_refl eq_refl _ _).
  - discriminate.
  - vm_compute. discriminate.
Defined.

End table_failure.
